(** * hassio/bootstrap.py: a shallow embedding and its properties

    The module under study builds the supervisor's shared context, checks the
    host environment, creates the on-disk directory layout, removes one
    obsolete directory and binds the shutdown signals.  All of it is
    effectful Python: it reads [os.environ], walks and mutates the
    filesystem through [pathlib], writes to a logger and talks to the asyncio
    event loop.

    The embedding threads an explicit [world] through a small state-and-
    exception monad [M].  The platform (filesystem tree, environment,
    search path, event loop) is modelled just far enough to run the code of
    [bootstrap.py] on it; the functions of [bootstrap.py] studied here
    ([initialize_coresys], [initialize_system_data], [migrate_system_env],
    [check_environment], [reg_signal]) are transcribed statement by
    statement. *)

From Stdlib Require Import Ascii String.
From stdpp Require Import gmap strings list fin_maps finite.
From Equations Require Import Equations.

Set Warnings "-register-all".
Set Default Proof Using "Type".

Local Open Scope string_scope.
Local Open Scope list_scope.

(** ** Python exceptions *)

(** [errno] values the modelled system calls can produce. *)
Inductive errno : Type :=
  | ENOENT | EEXIST | ENOTDIR | EISDIR | EACCES | ENOTEMPTY | EBUSY | ENXIO.

(** The exception classes that occur in [bootstrap.py] and in the library
    calls it makes.  [OSError e] carries the errno; Python presents
    [OSError ENOENT] as [FileNotFoundError], [OSError EEXIST] as
    [FileExistsError] and so on, all of them subclasses of [OSError]. *)
Inductive exn : Type :=
  | OSError (e : errno)
  | KeyError (key : string)
  | ValueError
  | RuntimeError
  | NotImplementedError          (* a subclass of RuntimeError *)
  | UnicodeDecodeError           (* a subclass of ValueError *)
  | OtherException (name : string).

Global Instance errno_eq_dec : EqDecision errno.
Proof. solve_decision. Defined.
Global Instance exn_eq_dec : EqDecision exn.
Proof. solve_decision. Defined.

(** [except OSError] *)
Definition is_OSError (e : exn) : bool :=
  match e with OSError _ => true | _ => false end.

(** [except FileNotFoundError] *)
Definition is_FileNotFoundError (e : exn) : bool :=
  match e with OSError ENOENT => true | _ => false end.

(** [except KeyError] *)
Definition is_KeyError (e : exn) : bool :=
  match e with KeyError _ => true | _ => false end.

(** [except (ValueError, RuntimeError)] *)
Definition is_ValueError_or_RuntimeError (e : exn) : bool :=
  match e with
  | ValueError | RuntimeError | NotImplementedError | UnicodeDecodeError =>
      true
  | _ => false
  end.

(** ** The filesystem *)

(** A path is the list of its components below the root, outermost first:
    [/data/addons/build] is [["data"; "addons"; "build"]], the root is
    [[]].  Symbolic links are not modelled. *)
Definition path : Type := list string.

(** A node of the tree.  A regular file is recorded as a reader in text
    mode meets it, under the encoding of the process's locale: [File text]
    holds bytes that decode to [text], [Binary] holds bytes that are not
    valid in that encoding.  A directory records whether entries may be
    added to or removed from it (write permission, a read-only mount). *)
Inductive node : Type :=
  | File (text : string)
  | Binary
  | Socket
  | Dir (writable : bool) (entries : gmap string node).

(** Outcome of resolving a path. *)
Inductive resolved : Type :=
  | Found (n : node)
  | Missing          (* ENOENT: a component does not exist *)
  | Blocked.         (* ENOTDIR: a component on the way is not a directory *)

Fixpoint resolve (t : node) (p : path) : resolved :=
  match p with
  | [] => Found t
  | c :: p' =>
      match t with
      | Dir _ es =>
          match es !! c with
          | Some t' => resolve t' p'
          | None => Missing
          end
      | _ => Blocked
      end
  end.

Definition node_is_dir (n : node) : bool :=
  match n with Dir _ _ => true | _ => false end.

(** [os.path.isdir] / [Path.is_dir]: false for anything that is missing or
    not a directory. *)
Definition fs_is_dir (t : node) (p : path) : bool :=
  match resolve t p with Found n => node_is_dir n | _ => false end.

(** [Path.is_socket] *)
Definition fs_is_socket (t : node) (p : path) : bool :=
  match resolve t p with Found Socket => true | _ => false end.

(** [Path.exists] *)
Definition fs_exists (t : node) (p : path) : bool :=
  match resolve t p with Found _ => true | _ => false end.

(** The [mkdir(2)] system call: creates exactly one directory, whose parent
    must already be a directory.  Either the tree with the new, empty and
    writable directory, or the errno. *)
Fixpoint fs_mkdir (t : node) (p : path) : errno + node :=
  match p with
  | [] => inl EEXIST
  | c :: p' =>
      match t with
      | Dir w es =>
          match p' with
          | [] =>
              match es !! c with
              | Some _ => inl EEXIST
              | None =>
                  if w then inr (Dir w (<[c := Dir true ∅]> es))
                  else inl EACCES
              end
          | _ :: _ =>
              match es !! c with
              | None => inl ENOENT
              | Some t' =>
                  match fs_mkdir t' p' with
                  | inr t'' => inr (Dir w (<[c := t'']> es))
                  | inl e => inl e
                  end
              end
          end
      | _ => inl ENOTDIR
      end
  end.

(** The [rmdir(2)] system call: removes one directory, which must be empty
    and sit in a writable parent. *)
Fixpoint fs_rmdir (t : node) (p : path) : errno + node :=
  match p with
  | [] => inl EBUSY
  | c :: p' =>
      match t with
      | Dir w es =>
          match es !! c with
          | None => inl ENOENT
          | Some t' =>
              match p' with
              | [] =>
                  if negb w then inl EACCES
                  else match t' with
                       | Dir _ es' =>
                           if decide (es' = ∅) then inr (Dir w (delete c es))
                           else inl ENOTEMPTY
                       | _ => inl ENOTDIR
                       end
              | _ :: _ =>
                  match fs_rmdir t' p' with
                  | inr t'' => inr (Dir w (<[c := t'']> es))
                  | inl e => inl e
                  end
              end
          end
      | _ => inl ENOTDIR
      end
  end.

(** Opening a path in text mode, reading all of it and decoding what was
    read: [open] fails with an errno, decoding the bytes of a [Binary]
    file fails with [UnicodeDecodeError]. *)
Definition fs_read_text (t : node) (p : path) : exn + string :=
  match resolve t p with
  | Found (File s) => inr s
  | Found Binary => inl UnicodeDecodeError
  | Found (Dir _ _) => inl (OSError EISDIR)
  | Found Socket => inl (OSError ENXIO)
  | Missing => inl (OSError ENOENT)
  | Blocked => inl (OSError ENOTDIR)
  end.

(** [PurePath.parent]; the root is its own parent. *)
Definition parent (p : path) : path := removelast p.

(** [Path(base, "a/b")]: joining with a relative path given by its
    components. *)
Definition Path_join (base : path) (rel : list string) : path := base ++ rel.

(** ** Signals and the event loop *)

Inductive signum : Type := SIGTERM | SIGHUP | SIGINT.

Global Instance signum_eq_dec : EqDecision signum.
Proof. solve_decision. Defined.

Definition signum_code (s : signum) : nat :=
  match s with SIGHUP => 1 | SIGINT => 2 | SIGTERM => 15 end.

Definition signum_of_code (n : nat) : option signum :=
  match n with
  | 1 => Some SIGHUP | 2 => Some SIGINT | 15 => Some SIGTERM
  | _ => None
  end.

Global Instance signum_countable : Countable signum.
Proof.
  apply (inj_countable signum_code signum_of_code). by intros [].
Defined.

(** The only callback the module installs:
    [lambda: loop.call_soon(loop.stop)]. *)
Inductive callback : Type := Call_soon_loop_stop.

(** ** Logging and the trace of external actions *)

Inductive level : Type := INFO | WARNING | FATAL.

Inductive log_arg : Type :=
  | ArgStr (s : string)
  | ArgPath (p : path).

(** The 13 subsystems of the shared context, in declaration order. *)
Inductive subsystem : Type :=
  | core | updater | api | supervisor | homeassistant | addons | snapshots
  | host | tasks | services | discovery | dbus | hassos.

Global Instance subsystem_eq_dec : EqDecision subsystem.
Proof. solve_decision. Defined.

Definition all_subsystems : list subsystem :=
  [core; updater; api; supervisor; homeassistant; addons; snapshots;
   host; tasks; services; discovery; dbus; hassos].

(** What the process does to the outside, in program order: a log record
    (format string and arguments, as handed to the logger), a system call
    or library call that was issued (whether or not it succeeded), a
    collaborator's constructor being called. *)
Inductive event : Type :=
  | EvLog (lvl : level) (fmt : string) (args : list log_arg)
  | EvMkdir (p : path)
  | EvRmdir (p : path)
  | EvReadText (p : path)
  | EvAddSignalHandler (s : signum)
  | EvConstruct (s : subsystem).

(** ** The world *)

Record world : Type := World {
  w_fs : node;                            (* the filesystem tree *)
  w_environ : gmap string string;         (* os.environ *)
  w_which : gmap string path;             (* programs found on the search path *)
  w_sig_refused : gmap signum exn;        (* signals the loop cannot bind, and why *)
  w_sig_handlers : gmap signum callback;  (* handlers bound on the loop *)
  w_trace : list event                    (* oldest first *)
}.

Definition set_fs (t : node) (w : world) : world :=
  World t (w_environ w) (w_which w) (w_sig_refused w) (w_sig_handlers w)
        (w_trace w).

Definition set_handlers (h : gmap signum callback) (w : world) : world :=
  World (w_fs w) (w_environ w) (w_which w) (w_sig_refused w) h (w_trace w).

Definition emit (e : event) (w : world) : world :=
  World (w_fs w) (w_environ w) (w_which w) (w_sig_refused w)
        (w_sig_handlers w) (w_trace w ++ [e]).

(** ** The monad: state plus Python exceptions *)

Inductive result (A : Type) : Type :=
  | Ok (a : A)
  | Raise (e : exn).
Arguments Ok {A} a.
Arguments Raise {A} e.

Definition M (A : Type) : Type := world → result A * world.

Definition M_ret {A} (a : A) : M A := λ w, (Ok a, w).

Definition M_bind {A B} (f : A → M B) (m : M A) : M B :=
  λ w, match m w with
       | (Ok a, w') => f a w'
       | (Raise e, w') => (Raise e, w')
       end.

Global Instance M_mret : MRet M := @M_ret.
Global Instance M_mbind : MBind M := @M_bind.

Definition raise {A} (e : exn) : M A := λ w, (Raise e, w).

(** [try: m  except <classes>: h] *)
Definition try_except {A} (m : M A) (catches : exn → bool) (h : exn → M A)
  : M A :=
  λ w, match m w with
       | (Ok a, w') => (Ok a, w')
       | (Raise e, w') => if catches e then h e w' else (Raise e, w')
       end.

(** ** Library calls *)

Definition _LOGGER_info (fmt : string) (args : list log_arg) : M unit :=
  λ w, (Ok (), emit (EvLog INFO fmt args) w).
Definition _LOGGER_warning (fmt : string) (args : list log_arg) : M unit :=
  λ w, (Ok (), emit (EvLog WARNING fmt args) w).
Definition _LOGGER_fatal (fmt : string) (args : list log_arg) : M unit :=
  λ w, (Ok (), emit (EvLog FATAL fmt args) w).

(** [os.environ[key]] *)
Definition os_environ_getitem (key : string) : M string :=
  λ w, match w_environ w !! key with
       | Some v => (Ok v, w)
       | None => (Raise (KeyError key), w)
       end.

(** [shutil.which(name)]: the resolved path, or [None]. *)
Definition shutil_which (name : string) : M (option path) :=
  λ w, (Ok (w_which w !! name), w).

Definition Path_is_dir (p : path) : M bool := λ w, (Ok (fs_is_dir (w_fs w) p), w).
Definition Path_is_socket (p : path) : M bool :=
  λ w, (Ok (fs_is_socket (w_fs w) p), w).
Definition Path_exists (p : path) : M bool := λ w, (Ok (fs_exists (w_fs w) p), w).

(** [os.mkdir(p)] *)
Definition os_mkdir (p : path) : M unit :=
  λ w, let w1 := emit (EvMkdir p) w in
       match fs_mkdir (w_fs w) p with
       | inr t => (Ok (), set_fs t w1)
       | inl e => (Raise (OSError e), w1)
       end.

(** [Path.rmdir()], which is [os.rmdir(p)] *)
Definition Path_rmdir (p : path) : M unit :=
  λ w, let w1 := emit (EvRmdir p) w in
       match fs_rmdir (w_fs w) p with
       | inr t => (Ok (), set_fs t w1)
       | inl e => (Raise (OSError e), w1)
       end.

(** [Path.read_text()]:
<<
    with self.open(mode='r', encoding=encoding, errors=errors) as f:
        return f.read()
>>
    with [encoding] and [errors] at their defaults, so the bytes are
    decoded strictly with the locale's encoding. *)
Definition Path_read_text (p : path) : M string :=
  λ w, let w1 := emit (EvReadText p) w in
       match fs_read_text (w_fs w) p with
       | inr s => (Ok s, w1)
       | inl e => (Raise e, w1)
       end.

(** [Path.mkdir(parents=False, exist_ok=exist_ok)]:
<<
    try:
        os.mkdir(self)
    except FileNotFoundError:
        raise                      # parents is False
    except OSError:
        if not exist_ok or not self.is_dir():
            raise
>> *)
Definition Path_mkdir_leaf (p : path) (exist_ok : bool) : M unit :=
  try_except (os_mkdir p)
    is_OSError
    (λ e, if is_FileNotFoundError e then raise e
          else d ← Path_is_dir p;
               if negb exist_ok || negb d then raise e else mret ()).

(** [Path.mkdir(parents=True, exist_ok=exist_ok)]:
<<
    try:
        os.mkdir(self)
    except FileNotFoundError:
        if not parents or self.parent == self:
            raise
        self.parent.mkdir(parents=True, exist_ok=True)
        self.mkdir(mode, parents=False, exist_ok=exist_ok)
    except OSError:
        if not exist_ok or not self.is_dir():
            raise
>> *)
Equations? Path_mkdir_parents (p : path) (exist_ok : bool) (w : world)
  : result unit * world by wf (length p) lt :=
  Path_mkdir_parents p exist_ok w with os_mkdir p w => {
    | (Ok _, w1) := (Ok (), w1);
    | (Raise e, w1) with is_FileNotFoundError e => {
        | true with decide (parent p = p) => {
            | left _ := (Raise e, w1);
            | right Hne with Path_mkdir_parents (parent p) true w1 => {
                | (Ok _, w2) := Path_mkdir_leaf p exist_ok w2;
                | (Raise e', w2) := (Raise e', w2) } };
        | false with is_OSError e => {
            | true :=
                if negb exist_ok || negb (fs_is_dir (w_fs w1) p)
                then (Raise e, w1) else (Ok (), w1);
            | false := (Raise e, w1) } } }.
Proof.
  unfold parent in *. destruct p as [|c p] using rev_ind; [done|].
  rewrite removelast_last, length_app. simpl. lia.
Qed.

(** [Path.mkdir(parents=parents)], with [exist_ok] at its default. *)
Definition Path_mkdir (p : path) (parents : bool) : M unit :=
  if parents then Path_mkdir_parents p false else Path_mkdir_leaf p false.

(** [loop.add_signal_handler(sig, callback)]: the loop either refuses the
    signal in this context, raising, or records the handler. *)
Definition loop_add_signal_handler (s : signum) (cb : callback) : M unit :=
  λ w, let w1 := emit (EvAddSignalHandler s) w in
       match w_sig_refused w !! s with
       | Some e => (Raise e, w1)
       | None => (Ok (), set_handlers (<[s := cb]> (w_sig_handlers w)) w1)
       end.

(** [str.strip()] on text whose code points are below 256: the characters
    Python counts as whitespace there are U+0009..U+000D, U+001C..U+0020,
    U+0085 and U+00A0. *)
Definition py_isspace (a : ascii) : bool :=
  let n := nat_of_ascii a in
  (((9 <=? n) && (n <=? 13)) || ((28 <=? n) && (n <=? 32))
   || (n =? 133) || (n =? 160))%nat.

Fixpoint py_lstrip (s : string) : string :=
  match s with
  | EmptyString => EmptyString
  | String a s' => if py_isspace a then py_lstrip s' else s
  end.

Fixpoint py_rstrip (s : string) : string :=
  match s with
  | EmptyString => EmptyString
  | String a s' =>
      match py_rstrip s' with
      | EmptyString => if py_isspace a then EmptyString else String a EmptyString
      | r => String a r
      end
  end.

Definition py_strip (s : string) : string := py_rstrip (py_lstrip s).

(** [for x in xs: body], where the body may [return] from the enclosing
    function: [Some r] stands for [return r], [None] for falling through
    to the next iteration. *)
Fixpoint for_return {A R} (xs : list A) (body : A → M (option R))
  : M (option R) :=
  match xs with
  | [] => mret None
  | x :: xs' =>
      r ← body x;
      match r with
      | Some v => mret (Some v)
      | None => for_return xs' body
      end
  end.

(** [not x] for an optional path: [None] is falsy, a resolved path is a
    non-empty string and so truthy. *)
Definition py_not_opt {A} (o : option A) : bool :=
  match o with None => true | Some _ => false end.

(** ** Collaborators that are not part of [bootstrap.py] *)

(** Modelled from the spec: the configuration object of [config.py] (absent
    here) "exposes a fixed set of named filesystem paths (home-assistant
    config dir, SSL dir, add-on data dir, add-on local-repo dir, add-on
    git-repos dir, tmp dir, backup dir, share dir, apparmor dir, and a base
    data root path)".  How the paths are computed is not defined at this
    layer, so they are arbitrary. *)
Record CoreConfig : Type := {
  path_hassio : path;
  path_homeassistant : path;
  path_ssl : path;
  path_addons_data : path;
  path_addons_local : path;
  path_addons_git : path;
  path_tmp : path;
  path_backup : path;
  path_share : path;
  path_apparmor : path
}.

#[global, program] Instance subsystem_finite : Finite subsystem :=
  {| enum := all_subsystems |}.
Next Obligation. by apply (bool_decide_unpack _). Qed.
Next Obligation.
  intros; unfold all_subsystems;
  match goal with |- ?x ∈ _ => destruct x end; set_solver.
Qed.

Definition loop_handle : Type := nat.

Section Bootstrap.

(** A subsystem object; what it is made of is the subsystem's business. *)
Context {handle : Type}.

(** Modelled from the spec: the shared context of [coresys.py] (absent
    here) holds "a configuration value, a mapping from subsystem name to
    subsystem handle, an optional host/machine identifier (string), an
    event-loop handle". *)
Record CoreSys : Type := {
  cs_loop : loop_handle;
  cs_config : CoreConfig;
  cs_machine_id : option string;
  cs_slots : gmap subsystem handle
}.

(** [coresys.<name> = value] *)
Definition set_slot (s : subsystem) (h : handle) (cs : CoreSys) : CoreSys :=
  {| cs_loop := cs_loop cs; cs_config := cs_config cs;
     cs_machine_id := cs_machine_id cs;
     cs_slots := <[s := h]> (cs_slots cs) |}.

(** [coresys.machine_id = value] *)
Definition set_machine_id (v : string) (cs : CoreSys) : CoreSys :=
  {| cs_loop := cs_loop cs; cs_config := cs_config cs;
     cs_machine_id := Some v;
     cs_slots := cs_slots cs |}.

(** The configuration that [CoreSys(loop)] builds for itself. *)
Variable the_config : CoreConfig.

(** Modelled from the spec: [CoreSys(loop)] creates the context with its
    configuration, no host identifier and no subsystem registered. *)
Definition CoreSys_new (loop : loop_handle) : CoreSys :=
  {| cs_loop := loop; cs_config := the_config;
     cs_machine_id := None; cs_slots := ∅ |}.

(** The subsystem constructors ([HassIO], [Updater], ..., [HassOS]), each
    taking only the shared context.  They live in other modules; a
    constructor yields an object or raises, and may look at the world. *)
Variable construct : subsystem → CoreSys → world → result handle.

(** Calling a constructor. *)
Definition new (s : subsystem) (cs : CoreSys) : M handle :=
  λ w, let w1 := emit (EvConstruct s) w in (construct s cs w1, w1).

(** [from .const import SOCKET_DOCKER]: a fixed path defined in
    [const.py]. *)
Variable SOCKET_DOCKER : path.

(** ** bootstrap.py *)

Definition ENV_SHARE : string := "SUPERVISOR_SHARE".
Definition ENV_NAME : string := "SUPERVISOR_NAME".
Definition ENV_REPO : string := "HOMEASSISTANT_REPOSITORY".

Definition MACHINE_ID : path := ["etc"; "machine-id"].

(** [initialize_system_data(coresys)], lines 64-116. *)
Definition initialize_system_data (coresys : CoreSys) : M CoreConfig :=
  let config := cs_config coresys in
  (* homeassistant config folder *)
  d ← Path_is_dir (path_homeassistant config);
  (if negb d then
     _LOGGER_info "Create Home-Assistant config folder %s"
                  [ArgPath (path_homeassistant config)];;
     Path_mkdir (path_homeassistant config) false
   else mret ());;
  (* hassio ssl folder *)
  d ← Path_is_dir (path_ssl config);
  (if negb d then
     _LOGGER_info "Create hassio ssl folder %s" [ArgPath (path_ssl config)];;
     Path_mkdir (path_ssl config) false
   else mret ());;
  (* hassio addon data folder *)
  d ← Path_is_dir (path_addons_data config);
  (if negb d then
     _LOGGER_info "Create hassio addon data folder %s"
                  [ArgPath (path_addons_data config)];;
     Path_mkdir (path_addons_data config) true
   else mret ());;
  d ← Path_is_dir (path_addons_local config);
  (if negb d then
     _LOGGER_info "Create hassio addon local repository folder %s"
                  [ArgPath (path_addons_local config)];;
     Path_mkdir (path_addons_local config) true
   else mret ());;
  d ← Path_is_dir (path_addons_git config);
  (if negb d then
     _LOGGER_info "Create hassio addon git repositories folder %s"
                  [ArgPath (path_addons_git config)];;
     Path_mkdir (path_addons_git config) true
   else mret ());;
  (* hassio tmp folder *)
  d ← Path_is_dir (path_tmp config);
  (if negb d then
     _LOGGER_info "Create hassio temp folder %s" [ArgPath (path_tmp config)];;
     Path_mkdir (path_tmp config) true
   else mret ());;
  (* hassio backup folder *)
  d ← Path_is_dir (path_backup config);
  (if negb d then
     _LOGGER_info "Create hassio backup folder %s"
                  [ArgPath (path_backup config)];;
     Path_mkdir (path_backup config) false
   else mret ());;
  (* share folder *)
  d ← Path_is_dir (path_share config);
  (if negb d then
     _LOGGER_info "Create hassio share folder %s"
                  [ArgPath (path_share config)];;
     Path_mkdir (path_share config) false
   else mret ());;
  (* apparmor folder *)
  d ← Path_is_dir (path_apparmor config);
  (if negb d then
     _LOGGER_info "Create hassio apparmor folder %s"
                  [ArgPath (path_apparmor config)];;
     Path_mkdir (path_apparmor config) false
   else mret ());;
  mret config.

(** [initialize_coresys(loop)], lines 35-61. *)
Definition initialize_coresys (loop : loop_handle) : M CoreSys :=
  let coresys := CoreSys_new loop in
  (* Initialize core objects *)
  h ← new core coresys;          let coresys := set_slot core h coresys in
  h ← new updater coresys;       let coresys := set_slot updater h coresys in
  h ← new api coresys;           let coresys := set_slot api h coresys in
  h ← new supervisor coresys;    let coresys := set_slot supervisor h coresys in
  h ← new homeassistant coresys; let coresys := set_slot homeassistant h coresys in
  h ← new addons coresys;        let coresys := set_slot addons h coresys in
  h ← new snapshots coresys;     let coresys := set_slot snapshots h coresys in
  h ← new host coresys;          let coresys := set_slot host h coresys in
  h ← new tasks coresys;         let coresys := set_slot tasks h coresys in
  h ← new services coresys;      let coresys := set_slot services h coresys in
  h ← new discovery coresys;     let coresys := set_slot discovery h coresys in
  h ← new dbus coresys;          let coresys := set_slot dbus h coresys in
  h ← new hassos coresys;        let coresys := set_slot hassos h coresys in
  (* bootstrap config *)
  initialize_system_data coresys;;
  (* Set Machine/Host ID *)
  e ← Path_exists MACHINE_ID;
  if e : bool then
    s ← Path_read_text MACHINE_ID;
    mret (set_machine_id (py_strip s) coresys)
  else mret coresys.

(** [migrate_system_env(coresys)], lines 119-129. *)
Definition migrate_system_env (coresys : CoreSys) : M unit :=
  let config := cs_config coresys in
  (* hass.io 0.37 -> 0.38 *)
  let old_build := Path_join (path_hassio config) ["addons"; "build"] in
  d ← Path_is_dir old_build;
  if d : bool then
    try_except (Path_rmdir old_build)
      is_OSError
      (λ _, _LOGGER_warning "Can't cleanup old addons build dir." [])
  else mret ().

(** [check_environment()], lines 157-182. *)
Definition check_environment : M bool :=
  (* check environment variables *)
  r ← for_return [ENV_SHARE; ENV_NAME; ENV_REPO] (λ key,
        try_except (os_environ_getitem key;; mret None)
          is_KeyError
          (λ _, _LOGGER_fatal "Can't find %s in env!" [ArgStr key];;
                mret (Some false)));
  match r with
  | Some b => mret b
  | None =>
      (* check docker socket *)
      s ← Path_is_socket SOCKET_DOCKER;
      if negb s then
        _LOGGER_fatal "Can't find docker socket!" [];;
        mret false
      else
        (* check socat exec *)
        p ← shutil_which "socat";
        if py_not_opt p then
          _LOGGER_fatal "Can't find socat program!" [];;
          mret false
        else
          (* check socat exec *)
          p ← shutil_which "gdbus";
          if py_not_opt p then
            _LOGGER_fatal "Can't find gdbus program!" [];;
            mret false
          else
            mret true
  end.

(** [reg_signal(loop)], lines 185-203. *)
Definition reg_signal (loop : loop_handle) : M unit :=
  try_except (loop_add_signal_handler SIGTERM Call_soon_loop_stop)
    is_ValueError_or_RuntimeError
    (λ _, _LOGGER_warning "Could not bind to SIGTERM" []);;
  try_except (loop_add_signal_handler SIGHUP Call_soon_loop_stop)
    is_ValueError_or_RuntimeError
    (λ _, _LOGGER_warning "Could not bind to SIGHUP" []);;
  try_except (loop_add_signal_handler SIGINT Call_soon_loop_stop)
    is_ValueError_or_RuntimeError
    (λ _, _LOGGER_warning "Could not bind to SIGINT" []).

End Bootstrap.

Arguments CoreSys : clear implicits.

(** ** Vocabulary for the statements *)

(** What a run did to the world: the events it appended to the trace. *)
Definition emitted (w w' : world) (evs : list event) : Prop :=
  w_trace w' = w_trace w ++ evs.

(** The conditions [check_environment] looks at, in the order it does. *)
Inductive condition : Type :=
  | CondEnv (key : string)
  | CondSocket
  | CondExec (prog : string).

Definition conditions : list condition :=
  [CondEnv ENV_SHARE; CondEnv ENV_NAME; CondEnv ENV_REPO;
   CondSocket; CondExec "socat"; CondExec "gdbus"].

(** A condition passes in a world. *)
Definition passes (sock : path) (w : world) (c : condition) : bool :=
  match c with
  | CondEnv key => if w_environ w !! key is Some _ then true else false
  | CondSocket => fs_is_socket (w_fs w) sock
  | CondExec prog => if w_which w !! prog is Some _ then true else false
  end.

(** The fatal log record that names a failing condition. *)
Definition fatal_record (c : condition) : event :=
  match c with
  | CondEnv key => EvLog FATAL "Can't find %s in env!" [ArgStr key]
  | CondSocket => EvLog FATAL "Can't find docker socket!" []
  | CondExec prog => EvLog FATAL ("Can't find " +:+ prog +:+ " program!") []
  end.

(** The first condition, in checking order, that does not pass. *)
Definition first_failing (sock : path) (w : world) : option condition :=
  List.find (λ c, negb (passes sock w c)) conditions.

Definition signal_name (s : signum) : string :=
  match s with SIGTERM => "SIGTERM" | SIGHUP => "SIGHUP" | SIGINT => "SIGINT" end.

(** What [reg_signal] does for one signal in a world: the call, and the
    warning if the loop refuses. *)
Definition bind_events (w : world) (s : signum) : list event :=
  EvAddSignalHandler s ::
  match w_sig_refused w !! s with
  | Some _ => [EvLog WARNING ("Could not bind to " +:+ signal_name s) []]
  | None => []
  end.

(** The obsolete directory of the 0.37 layout. *)
Definition old_build_dir (config : CoreConfig) : path :=
  path_hassio config ++ ["addons"; "build"].

(** What sits at a path, without the entries of a directory. *)
Inductive kind : Type :=
  | KDir (writable : bool)
  | KFile (text : string)
  | KBinary
  | KSocket
  | KMissing
  | KBlocked.

Definition kind_of (t : node) (p : path) : kind :=
  match resolve t p with
  | Found (Dir w _) => KDir w
  | Found (File s) => KFile s
  | Found Binary => KBinary
  | Found Socket => KSocket
  | Missing => KMissing
  | Blocked => KBlocked
  end.

(** [p] does not exist and can be created together with its missing
    ancestors: walking down, the first missing component is reached inside
    a writable directory. *)
Fixpoint can_makedirs (t : node) (p : path) : bool :=
  match p with
  | [] => false
  | c :: p' =>
      match t with
      | Dir w es =>
          match es !! c with
          | Some t' => can_makedirs t' p'
          | None => w
          end
      | _ => false
      end
  end.

(** [p] does not exist and its parent is a writable directory. *)
Definition can_mkdir (t : node) (p : path) : bool :=
  match fs_mkdir t p with inr _ => true | inl _ => false end.

(** The world [w] with the filesystem replaced by [t] and [evs] appended to
    the trace. *)
Definition extends (w : world) (t : node) (evs : list event) : world :=
  World t (w_environ w) (w_which w) (w_sig_refused w) (w_sig_handlers w)
        (w_trace w ++ evs).

(** One block of [initialize_system_data]:
<<
    if not path.is_dir():
        _LOGGER.info(fmt, path)
        path.mkdir(parents=parents)
>> *)
Definition ensure_dir (fmt : string) (p : path) (parents : bool) : M unit :=
  d ← Path_is_dir p;
  if negb d then
    _LOGGER_info fmt [ArgPath p];;
    Path_mkdir p parents
  else mret ().

(** The blocks of [initialize_system_data], in program order: the log
    format, the path and whether [mkdir] is given [parents=True]. *)
Definition required_dirs (config : CoreConfig) : list (string * path * bool) :=
  [("Create Home-Assistant config folder %s", path_homeassistant config, false);
   ("Create hassio ssl folder %s", path_ssl config, false);
   ("Create hassio addon data folder %s", path_addons_data config, true);
   ("Create hassio addon local repository folder %s", path_addons_local config, true);
   ("Create hassio addon git repositories folder %s", path_addons_git config, true);
   ("Create hassio temp folder %s", path_tmp config, true);
   ("Create hassio backup folder %s", path_backup config, false);
   ("Create hassio share folder %s", path_share config, false);
   ("Create hassio apparmor folder %s", path_apparmor config, false)].

Fixpoint run_steps (steps : list (string * path * bool)) : M unit :=
  match steps with
  | [] => mret ()
  | (fmt, p, parents) :: rest => ensure_dir fmt p parents;; run_steps rest
  end.

(** What a [mkdir] of [p] may create: the path itself, and with
    [parents=True] also the ancestors of the path. *)
Definition within (parents : bool) (p q : path) : Prop :=
  if parents then q `prefix_of` p else q = p.

Global Instance within_dec parents p q : Decision (within parents p q).
Proof. unfold within. destruct parents; apply _. Defined.

(** What a block may create. *)
Definition may_create (step : string * path * bool) (q : path) : Prop :=
  let '(_, p, parents) := step in q ≠ [] ∧ within parents p q.

(** The part of [initialize_coresys] before the host identifier is read
    (lines 37-55): the context, the thirteen constructors, the filesystem
    bootstrap. *)
Definition construct_and_bootstrap {handle} (the_config : CoreConfig)
    (construct : subsystem → CoreSys handle → world → result handle)
    (loop : loop_handle) : M (CoreSys handle) :=
  let coresys := CoreSys_new the_config loop in
  h ← new construct core coresys;          let coresys := set_slot core h coresys in
  h ← new construct updater coresys;       let coresys := set_slot updater h coresys in
  h ← new construct api coresys;           let coresys := set_slot api h coresys in
  h ← new construct supervisor coresys;    let coresys := set_slot supervisor h coresys in
  h ← new construct homeassistant coresys; let coresys := set_slot homeassistant h coresys in
  h ← new construct addons coresys;        let coresys := set_slot addons h coresys in
  h ← new construct snapshots coresys;     let coresys := set_slot snapshots h coresys in
  h ← new construct host coresys;          let coresys := set_slot host h coresys in
  h ← new construct tasks coresys;         let coresys := set_slot tasks h coresys in
  h ← new construct services coresys;      let coresys := set_slot services h coresys in
  h ← new construct discovery coresys;     let coresys := set_slot discovery h coresys in
  h ← new construct dbus coresys;          let coresys := set_slot dbus h coresys in
  h ← new construct hassos coresys;        let coresys := set_slot hassos h coresys in
  initialize_system_data coresys;;
  mret coresys.

Global Instance kind_eq_dec : EqDecision kind.
Proof. solve_decision. Defined.

(** An [os.mkdir] call that [Path(p).mkdir] may issue on the tree [t]: on
    [p] itself, or on an ancestor of [p] that does not exist. *)
Definition mkdir_event_ok (t : node) (p : path) (ev : event) : Prop :=
  ∃ x, ev = EvMkdir x ∧ x `prefix_of` p ∧ (x = p ∨ kind_of t x = KMissing).

(** The [mkdir] of a block succeeds on the tree [t]. *)
Definition creatable (parents : bool) (t : node) (p : path) : bool :=
  if parents then can_makedirs t p else can_mkdir t p.

(** A block goes through on the tree [t]: its directory is there, or can
    be created. *)
Definition ready (t : node) (step : string * path * bool) : bool :=
  let '(_, p, parents) := step in fs_is_dir t p || creatable parents t p.

(** The only change between [t] and [t'] is that some paths that were
    missing are writable directories now, each of them allowed by [allow]. *)
Definition grows (allow : path → Prop) (t t' : node) : Prop :=
  ∀ q, kind_of t' q = kind_of t q ∨
       (kind_of t q = KMissing ∧ kind_of t' q = KDir true ∧ allow q).

(** The events a run of the blocks may leave in the trace, seen from the
    tree [t] it started on: an info record for a listed path that was not
    a directory, or an [os.mkdir] on a path that was not a directory. *)
Definition bootstrap_event_ok (steps : list (string * path * bool))
    (t : node) (ev : event) : Prop :=
  match ev with
  | EvLog lvl fmt args =>
      lvl = INFO ∧ ∃ p parents, args = [ArgPath p] ∧
        (fmt, p, parents) ∈ steps ∧ fs_is_dir t p = false
  | EvMkdir x => fs_is_dir t x = false
  | _ => False
  end.

(** A path is taken by something that is not a directory. *)
Definition occupied (t : node) (p : path) : Prop :=
  match kind_of t p with
  | KFile _ | KBinary | KSocket => True
  | _ => False
  end.

(** What the host-identifier step of [initialize_coresys] (lines 57-59)
    does to a context [cs] in a world [w]. *)
Definition machine_id_step {handle} (cs : CoreSys handle) (w : world)
  : result (CoreSys handle) * world :=
  if fs_exists (w_fs w) MACHINE_ID then
    match fs_read_text (w_fs w) MACHINE_ID with
    | inr s => (Ok (set_machine_id (py_strip s) cs), emit (EvReadText MACHINE_ID) w)
    | inl e => (Raise e, emit (EvReadText MACHINE_ID) w)
    end
  else (Ok cs, w).

(** ** Concrete worlds *)

(** The layout of a stock installation, everything under [/data]. *)
Definition stock_config : CoreConfig := {|
  path_hassio := ["data"];
  path_homeassistant := ["data"; "homeassistant"];
  path_ssl := ["data"; "ssl"];
  path_addons_data := ["data"; "addons"; "data"];
  path_addons_local := ["data"; "addons"; "local"];
  path_addons_git := ["data"; "addons"; "git"];
  path_tmp := ["data"; "tmp"];
  path_backup := ["data"; "backup"];
  path_share := ["data"; "share"];
  path_apparmor := ["data"; "apparmor"]
|}.

Definition stock_socket : path := ["var"; "run"; "docker.sock"].

(** Constructors that always succeed; a handle is a number. *)
Definition stock_construct (s : subsystem) (cs : CoreSys nat) (w : world)
  : result nat :=
  Ok (length (w_trace w)).

Definition stock_context : CoreSys nat := CoreSys_new stock_config 0.

Definition newline : string := String (ascii_of_nat 10) EmptyString.

(** A first boot: an empty, writable [/data], the machine identifier in
    [/etc], nothing in the environment, no program on the search path. *)
Definition fresh_world : world :=
  World (Dir true {[ "data" := Dir true ∅;
                     "etc" := Dir true {[ "machine-id" := File ("abc123" +:+ newline) ]} ]})
        ∅ ∅ ∅ ∅ [].

(** The same without a machine identifier. *)
Definition anonymous_world : world :=
  World (Dir true {[ "data" := Dir true ∅ ]}) ∅ ∅ ∅ ∅ [].

(** [/data/ssl] is a regular file. *)
Definition ssl_is_a_file_world : world :=
  World (Dir true {[ "data" := Dir true {[ "ssl" := File "" ]} ]}) ∅ ∅ ∅ ∅ [].

(** The 0.37 build directory is still there, with a leftover in it. *)
Definition leftover_world : world :=
  World (Dir true {[ "data" := Dir true
           {[ "addons" := Dir true
                {[ "build" := Dir true {[ "Dockerfile" := File "" ]} ]} ]} ]})
        ∅ ∅ ∅ ∅ [].

(** The loop refuses SIGHUP. *)
Definition no_sighup_world : world :=
  World (Dir true ∅) ∅ ∅ {[ SIGHUP := ValueError ]} ∅ [].

(** A run returned rather than raised. *)
Definition is_Ok {A} (r : result A) : bool :=
  match r with Ok _ => true | Raise _ => false end.

(** The value a run returned, or [d] if it raised. *)
Definition returned {A} (d : A) (r : result A) : A :=
  match r with Ok a => a | Raise _ => d end.

(** ** More concrete worlds *)

(** The 0.37 build directory is still there, and empty. *)
Definition stale_world : world :=
  World (Dir true {[ "data" := Dir true
           {[ "addons" := Dir true {[ "build" := Dir true ∅ ]} ]} ]})
        ∅ ∅ ∅ ∅ [].

(** Everything the preflight wants is there; the variables are set to
    the empty string. *)
Definition ready_host_world : world :=
  World (Dir true {[ "var" := Dir true
           {[ "run" := Dir true {[ "docker.sock" := Socket ]} ]} ]})
        {[ ENV_SHARE := ""; ENV_NAME := ""; ENV_REPO := "" ]}
        {[ "socat" := ["usr"; "bin"; "socat"];
           "gdbus" := ["usr"; "bin"; "gdbus"] ]}
        ∅ ∅ [].

(** The same host with the variables set to something. *)
Definition named_host_world : world :=
  World (Dir true {[ "var" := Dir true
           {[ "run" := Dir true {[ "docker.sock" := Socket ]} ]} ]})
        {[ ENV_SHARE := "/usr/share/hassio"; ENV_NAME := "hassio_supervisor";
           ENV_REPO := "homeassistant/qemux86-64-homeassistant" ]}
        {[ "socat" := ["usr"; "local"; "bin"; "socat"];
           "gdbus" := ["usr"; "bin"; "gdbus"] ]}
        ∅ ∅ [].

(** The paths of the blocks of [initialize_system_data]. *)
Definition required_paths (config : CoreConfig) : list path :=
  (λ st : string * path * bool, st.1.2) <$> required_dirs config.

(** The order in which [reg_signal] goes through the signals. *)
Definition signal_order : list signum := [SIGTERM; SIGHUP; SIGINT].

(** The loop fails on SIGHUP with something [reg_signal] does not catch. *)
Definition broken_sighup_world : world :=
  World (Dir true ∅) ∅ ∅ {[ SIGHUP := OtherException "TypeError" ]} ∅ [].

(** An event a run of [initialize_system_data] can leave: an info record
    or an [os.mkdir]. *)
Definition is_info_or_mkdir (ev : event) : Prop :=
  match ev with
  | EvLog INFO _ _ | EvMkdir _ => True
  | _ => False
  end.


(** The constructor lines of [initialize_coresys] for the subsystems
    [names], in order, starting from the context [cs]:
<<
    coresys.<name> = <Class>(coresys)
>> *)
Fixpoint construct_all {handle}
    (construct : subsystem → CoreSys handle → world → result handle)
    (names : list subsystem) (cs : CoreSys handle) : M (CoreSys handle) :=
  match names with
  | [] => mret cs
  | s :: rest =>
      h ← new construct s cs;
      construct_all construct rest (set_slot s h cs)
  end.


(** [/etc/machine-id] is a directory. *)
Definition machine_id_is_a_dir_world : world :=
  World (Dir true {[ "data" := Dir true ∅;
                     "etc" := Dir true {[ "machine-id" := Dir true ∅ ]} ]})
        ∅ ∅ ∅ ∅ [].


(** The first and the last character of a text. *)
Definition first_char (s : string) : option ascii :=
  match s with EmptyString => None | String a _ => Some a end.

Fixpoint last_char (s : string) : option ascii :=
  match s with
  | EmptyString => None
  | String a EmptyString => Some a
  | String _ s' => last_char s'
  end.

(** A text made of whitespace only. *)
Fixpoint all_space (s : string) : bool :=
  match s with
  | EmptyString => true
  | String a s' => py_isspace a && all_space s'
  end.

(** ** The [logging] module, as far as [initialize_logging] uses it *)

(** The numeric levels. *)
Definition logging_INFO : nat := 20.
Definition logging_WARNING : nat := 30.

(** A formatter object: [logging.Formatter(fmt, datefmt)] or
    [colorlog.ColoredFormatter(fmt, datefmt=, reset=, log_colors=)]. *)
Inductive formatter : Type :=
  | Formatter (fmt : string) (datefmt : option string)
  | ColoredFormatter (fmt : string) (datefmt : option string) (reset : bool)
                     (log_colors : list (string * string)).

(** A handler: what it writes to, and its formatter if it has one. *)
Record handler : Type := Handler {
  h_target : string;
  h_formatter : option formatter
}.

(** The state of the module: the root logger's level and handlers, and the
    level of every named logger that was given one. *)
Record logging_state : Type := Logging {
  root_level : nat;
  root_handlers : list handler;
  logger_levels : gmap string nat
}.

Definition L (A : Type) : Type := logging_state → result A * logging_state.

Definition L_ret {A} (a : A) : L A := λ st, (Ok a, st).

Definition L_bind {A B} (f : A → L B) (m : L A) : L B :=
  λ st, match m st with
        | (Ok a, st') => f a st'
        | (Raise e, st') => (Raise e, st')
        end.

Global Instance L_mret : MRet L := @L_ret.
Global Instance L_mbind : MBind L := @L_bind.

(** [logging.BASIC_FORMAT] *)
Definition BASIC_FORMAT : string := "%(levelname)s:%(name)s:%(message)s".

(** [logging.basicConfig(level=level)]: does nothing when the root logger
    already has a handler; otherwise gives it a [StreamHandler] on stderr
    with the basic format and sets its level. *)
Definition logging_basicConfig (lvl : nat) : L unit :=
  λ st, match root_handlers st with
        | [] =>
            (Ok (),
             Logging lvl
               [Handler "stderr" (Some (Formatter BASIC_FORMAT None))]
               (logger_levels st))
        | _ :: _ => (Ok (), st)
        end.

(** [logging.getLogger(name).setLevel(level)] *)
Definition Logger_setLevel (name : string) (lvl : nat) : L unit :=
  λ st, (Ok (), Logging (root_level st) (root_handlers st)
                        (<[name := lvl]> (logger_levels st))).

(** [logging.getLogger().handlers[i]]: [IndexError] out of range. *)
Definition root_handler (i : nat) : L handler :=
  λ st, match root_handlers st !! i with
        | Some h => (Ok h, st)
        | None => (Raise (OtherException "IndexError"), st)
        end.

(** [logging.getLogger().handlers[i].setFormatter(f)], the handler being
    there. *)
Definition root_handler_setFormatter (i : nat) (f : formatter) : L unit :=
  λ st, (Ok (), Logging (root_level st)
                        (alter (λ h, Handler (h_target h) (Some f)) i
                               (root_handlers st))
                        (logger_levels st)).

(** [template.format(a, b, ...)] for templates whose only replacement fields
    are [{}]: [{{] and [}}] are literal braces, a [{}] beyond the arguments
    is an [IndexError], any other brace a [ValueError]. *)
Fixpoint str_format_from (template : string) (args : list string)
  : result string :=
  match template with
  | EmptyString => Ok EmptyString
  | String "{" (String "{" rest) =>
      match str_format_from rest args with
      | Ok s => Ok (String "{" s)
      | Raise e => Raise e
      end
  | String "{" (String "}" rest) =>
      match args with
      | a :: args' =>
          match str_format_from rest args' with
          | Ok s => Ok (a +:+ s)
          | Raise e => Raise e
          end
      | [] => Raise (OtherException "IndexError")
      end
  | String "{" _ => Raise ValueError
  | String "}" (String "}" rest) =>
      match str_format_from rest args with
      | Ok s => Ok (String "}" s)
      | Raise e => Raise e
      end
  | String "}" _ => Raise ValueError
  | String c rest =>
      match str_format_from rest args with
      | Ok s => Ok (String c s)
      | Raise e => Raise e
      end
  end.

Definition str_format (template : string) (args : list string) : L string :=
  λ st, (str_format_from template args, st).

(** [initialize_logging()], lines 132-154. *)
Definition initialize_logging : L unit :=
  logging_basicConfig logging_INFO;;
  let fmt := "%(asctime)s %(levelname)s (%(threadName)s) "
             +:+ "[%(name)s] %(message)s" in
  colorfmt ← str_format "%(log_color)s{}%(reset)s" [fmt];
  let datefmt := "%y-%m-%d %H:%M:%S" in
  (* suppress overly verbose logs from libraries that aren't helpful *)
  Logger_setLevel "aiohttp.access" logging_WARNING;;
  _ ← root_handler 0;
  root_handler_setFormatter 0
    (ColoredFormatter colorfmt (Some datefmt) true
       [("DEBUG", "cyan"); ("INFO", "green"); ("WARNING", "yellow");
        ("ERROR", "red"); ("CRITICAL", "red")]).

(** The formatter [initialize_logging] installs. *)
Definition hassio_formatter : formatter :=
  ColoredFormatter
    ("%(log_color)s%(asctime)s %(levelname)s (%(threadName)s) "
     +:+ "[%(name)s] %(message)s%(reset)s")
    (Some "%y-%m-%d %H:%M:%S") true
    [("DEBUG", "cyan"); ("INFO", "green"); ("WARNING", "yellow");
     ("ERROR", "red"); ("CRITICAL", "red")].

(** The module right after import: root at WARNING, no handler. *)
Definition pristine_logging : logging_state := Logging 30 [] ∅.

(** A host application configured logging before: root at ERROR, a file
    handler and a syslog handler, one logger tuned. *)
Definition configured_logging : logging_state :=
  Logging 40
    [Handler "/var/log/app.log" (Some (Formatter "%(message)s" None));
     Handler "syslog" None]
    {[ "asyncio" := 10 ]}.

(** ** Tactics for running the monad *)

Ltac munfold :=
  unfold mbind, mret, M_mbind, M_mret, M_bind, M_ret, try_except, raise,
    _LOGGER_info, _LOGGER_warning, _LOGGER_fatal, os_environ_getitem,
    shutil_which, Path_is_dir, Path_is_socket, Path_exists in *.

(** ** The preflight validator *)

Lemma check_environment_run sock w :
  check_environment sock w =
    match first_failing sock w with
    | None => (Ok true, w)
    | Some c => (Ok false, emit (fatal_record c) w)
    end.
Proof.
  unfold check_environment, first_failing, conditions.
  cbn [for_return List.find passes]. munfold.
  destruct (w_environ w !! ENV_SHARE); [|reflexivity].
  destruct (w_environ w !! ENV_NAME); [|reflexivity].
  destruct (w_environ w !! ENV_REPO); [|reflexivity].
  destruct (fs_is_socket (w_fs w) sock); [|reflexivity]. simpl.
  destruct (w_which w !! "socat"); [|reflexivity]. simpl.
  destruct (w_which w !! "gdbus"); reflexivity.
Qed.

Lemma first_failing_None sock w :
  first_failing sock w = None ↔ ∀ c, c ∈ conditions → passes sock w c = true.
Proof.
  unfold first_failing. split.
  - intros Hnone c Hc. apply list_elem_of_In in Hc.
    pose proof (find_none _ _ Hnone c Hc) as H. simpl in H.
    by destruct (passes sock w c).
  - intros Hall. destruct (List.find _ _) as [c|] eqn:E; [|done].
    apply find_some in E as [Hc Hf]. apply list_elem_of_In in Hc.
    simpl in Hf. rewrite (Hall c Hc) in Hf. done.
Qed.

Lemma first_failing_Some sock w c :
  first_failing sock w = Some c → c ∈ conditions ∧ passes sock w c = false.
Proof.
  unfold first_failing. intros H. apply find_some in H as [Hc Hf].
  apply list_elem_of_In in Hc. simpl in Hf. by destruct (passes sock w c).
Qed.

Lemma find_first {A} (f : A → bool) (l : list A) (x : A) :
  List.find f l = Some x →
  ∃ pre post, l = pre ++ x :: post ∧ f x = true ∧ ∀ y, y ∈ pre → f y = false.
Proof.
  induction l as [|a l IH]; simpl; [done|].
  destruct (f a) eqn:Fa.
  - intros [= ->]. exists [], l. split_and!; [done|done|].
    intros y Hy. by apply elem_of_nil in Hy.
  - intros Hx. destruct (IH Hx) as (pre & post & -> & Hfx & Hpre).
    exists (a :: pre), post. split_and!; [done|done|].
    intros y Hy. apply elem_of_cons in Hy as [->|Hy]; auto.
Qed.

(** C2. [check_environment] never raises, and the boolean it returns is
    true exactly when every one of the six conditions (three environment
    variables, the control socket, two executables) passes; as soon as any
    of them fails, whatever the combination, it is false. *)
Theorem check_environment_true_iff_all_pass (sock : path) (w : world) :
  ∃ b : bool,
    fst (check_environment sock w) = Ok b ∧
    (b = true ↔ ∀ c, c ∈ conditions → passes sock w c = true) ∧
    (b = false ↔ ∃ c, c ∈ conditions ∧ passes sock w c = false).
Proof.
  rewrite check_environment_run.
  destruct (first_failing sock w) as [c|] eqn:E.
  - exists false. apply first_failing_Some in E as [Hc Hf].
    split_and!; [done| |].
    + split; [done|]. intros Hall. rewrite (Hall c Hc) in Hf. done.
    + split; [|done]. intros _. by exists c.
  - exists true. pose proof (proj1 (first_failing_None sock w) E) as Hall.
    split_and!; [done| |].
    + by split.
    + split; [done|]. intros (c & Hc & Hf). rewrite (Hall c Hc) in Hf. done.
Qed.

(** C1, as the code has it.  When one or more conditions fail,
    [check_environment] logs exactly one fatal record, the one naming the
    first failing condition in checking order, and no record for the
    conditions after it, whether they pass or not; when every condition
    passes it logs nothing.  Nothing but the trace changes. *)
Theorem check_environment_logs_first_failure (sock : path) (w : world) :
  match first_failing sock w with
  | Some c =>
      snd (check_environment sock w) = emit (fatal_record c) w ∧
      passes sock w c = false ∧
      ∃ before after,
        conditions = before ++ c :: after ∧
        ∀ c', c' ∈ before → passes sock w c' = true
  | None =>
      snd (check_environment sock w) = w ∧
      ∀ c, c ∈ conditions → passes sock w c = true
  end.
Proof.
  rewrite check_environment_run.
  destruct (first_failing sock w) as [c|] eqn:E.
  - unfold first_failing in E.
    destruct (find_first _ _ _ E) as (pre & post & Hsplit & Hf & Hpre).
    simpl in Hf. split_and!; [done|by destruct (passes sock w c)|].
    exists pre, post. split; [done|]. intros c' Hc'.
    specialize (Hpre c' Hc'). simpl in Hpre. by destruct (passes sock w c').
  - split; [done|]. by apply first_failing_None.
Qed.

(** ** The signal coordinator *)

(** C5. Whatever subset of the three signals the loop refuses to bind
    (with the [ValueError] or [RuntimeError] that asyncio raises for
    that), [reg_signal] returns normally; it has attempted all three
    bindings, in the order SIGTERM, SIGHUP, SIGINT, each refusal is followed
    by its own warning, and every signal that was not refused is bound to
    the loop-stopping callback. *)
Theorem reg_signal_degrades_per_signal (loop : loop_handle) (w : world) :
  (∀ s e, w_sig_refused w !! s = Some e →
          is_ValueError_or_RuntimeError e = true) →
  ∃ w',
    reg_signal loop w = (Ok (), w') ∧
    emitted w w' (bind_events w SIGTERM ++ bind_events w SIGHUP
                  ++ bind_events w SIGINT) ∧
    (∀ s, w_sig_handlers w' !! s =
            match w_sig_refused w !! s with
            | Some _ => w_sig_handlers w !! s
            | None => Some Call_soon_loop_stop
            end) ∧
    w_fs w' = w_fs w.
Proof.
  intros Hcaught.
  pose proof (Hcaught SIGTERM) as H1.
  pose proof (Hcaught SIGHUP) as H2.
  pose proof (Hcaught SIGINT) as H3.
  unfold reg_signal, loop_add_signal_handler, emitted, bind_events. munfold.
  destruct (w_sig_refused w !! SIGTERM) as [e1|] eqn:E1;
    [rewrite (H1 e1 eq_refl)|]; cbn [w_sig_refused emit set_handlers];
  (destruct (w_sig_refused w !! SIGHUP) as [e2|] eqn:E2;
    [rewrite (H2 e2 eq_refl)|]; cbn [w_sig_refused emit set_handlers];
   (destruct (w_sig_refused w !! SIGINT) as [e3|] eqn:E3;
     [rewrite (H3 e3 eq_refl)|]; cbn [w_sig_refused emit set_handlers];
    (eexists; split; [reflexivity|]; simpl;
     split; [by rewrite <- ?app_assoc|];
     split; [|done];
     intros s; destruct s; rewrite ?E1, ?E2, ?E3; by simplify_map_eq))).
Qed.

(** ** The legacy state migrator *)

Lemma fs_rmdir_inr t p t' :
  fs_rmdir t p = inr t' → ∃ b, resolve t p = Found (Dir b ∅).
Proof.
  revert t t'. induction p as [|c p IH]; intros t t'; simpl; [done|].
  destruct t as [| | |w es]; [done|done|done|].
  destruct (es !! c) as [n|] eqn:Ec; [|done].
  destruct p as [|c' p'].
  - destruct w; simpl; [|done]. destruct n as [| | |b es']; [done|done|done|].
    case_decide; [|done]. subst. intros _. by exists b.
  - destruct (fs_rmdir n (c' :: p')) eqn:E; [done|].
    intros _. by apply (IH n n0).
Qed.

Lemma migrate_system_env_run {handle} (cs : CoreSys handle) w :
  let old := old_build_dir (cs_config cs) in
  migrate_system_env cs w =
    if fs_is_dir (w_fs w) old then
      match fs_rmdir (w_fs w) old with
      | inr t => (Ok (), set_fs t (emit (EvRmdir old) w))
      | inl _ => (Ok (), emit (EvLog WARNING "Can't cleanup old addons build dir." [])
                              (emit (EvRmdir old) w))
      end
    else (Ok (), w).
Proof.
  unfold migrate_system_env, Path_rmdir, Path_join, old_build_dir. munfold.
  destruct (fs_is_dir _ _); [|done].
  by destruct (fs_rmdir _ _).
Qed.

(** C6. If the legacy directory is not there, [migrate_system_env] does
    nothing at all: no removal is attempted, nothing is logged, the world is
    as it was.  If it is there and the removal fails, for whatever reason,
    the error is caught: the function returns normally, having logged one
    warning and left the filesystem as it was. *)
Theorem migrate_system_env_never_blocks {handle} (cs : CoreSys handle)
    (w : world) :
  let old := old_build_dir (cs_config cs) in
  (fs_is_dir (w_fs w) old = false →
     migrate_system_env cs w = (Ok (), w)) ∧
  (fs_is_dir (w_fs w) old = true →
     ∀ e, fs_rmdir (w_fs w) old = inl e →
       ∃ w', migrate_system_env cs w = (Ok (), w') ∧
             w_fs w' = w_fs w ∧
             emitted w w'
               [EvRmdir old;
                EvLog WARNING "Can't cleanup old addons build dir." []]).
Proof.
  intros old. rewrite migrate_system_env_run. fold old. split.
  - by intros ->.
  - intros -> e ->. eexists. split; [done|]. split; [done|].
    unfold emitted. simpl. by rewrite <- app_assoc.
Qed.

(** C9. The removal is [rmdir], which only removes an empty directory.
    If the legacy directory exists and has an entry, the removal fails, one
    warning is logged, the function returns normally and the filesystem,
    the directory and its contents included, is exactly as before.  And
    whenever [migrate_system_env] does change the filesystem, the legacy
    directory was an empty directory. *)
Theorem migrate_system_env_keeps_nonempty {handle} (cs : CoreSys handle)
    (w : world) (b : bool) (es : gmap string node) :
  let old := old_build_dir (cs_config cs) in
  resolve (w_fs w) old = Found (Dir b es) →
  es ≠ ∅ →
  (∃ w', migrate_system_env cs w = (Ok (), w') ∧
         w_fs w' = w_fs w ∧
         emitted w w'
           [EvRmdir old;
            EvLog WARNING "Can't cleanup old addons build dir." []]) ∧
  (∀ w0, w_fs (snd (migrate_system_env cs w0)) ≠ w_fs w0 →
         ∃ b0, resolve (w_fs w0) old = Found (Dir b0 ∅)).
Proof.
  intros old Hres Hne. split.
  - rewrite migrate_system_env_run. fold old.
    unfold fs_is_dir. rewrite Hres. simpl.
    destruct (fs_rmdir (w_fs w) old) as [e|t] eqn:E.
    + eexists. split; [done|]. split; [done|].
      unfold emitted. simpl. by rewrite <- app_assoc.
    + apply fs_rmdir_inr in E as [b0 E]. rewrite Hres in E.
      by injection E as _ ->.
  - intros w0. rewrite migrate_system_env_run. fold old.
    destruct (fs_is_dir (w_fs w0) old); [|done].
    destruct (fs_rmdir (w_fs w0) old) as [e|t] eqn:E; [done|].
    intros _. by apply fs_rmdir_inr in E.
Qed.

(** ** The filesystem: resolving paths *)

Lemma resolve_app t p q :
  resolve t (p ++ q) =
    match resolve t p with Found n => resolve n q | r => r end.
Proof.
  revert t. induction p as [|c p IH]; intros t; simpl; [done|].
  destruct t as [| | |w es]; [done|done|done|].
  destruct (es !! c); [apply IH|done].
Qed.

Lemma kind_of_nil_not_missing t : kind_of t [] ≠ KMissing.
Proof. unfold kind_of. simpl. by destruct t. Qed.

Lemma kind_of_cons_Dir w es c p :
  kind_of (Dir w es) (c :: p) =
    match es !! c with Some n => kind_of n p | None => KMissing end.
Proof. unfold kind_of. simpl. by destruct (es !! c). Qed.

Lemma fs_is_dir_kind t p :
  fs_is_dir t p = match kind_of t p with KDir _ => true | _ => false end.
Proof.
  unfold fs_is_dir, kind_of. destruct (resolve t p) as [[]| |]; done.
Qed.

(** Below a path that is missing, everything is missing. *)
Lemma kind_of_missing_app t p q :
  kind_of t p = KMissing → kind_of t (p ++ q) = KMissing.
Proof.
  unfold kind_of. rewrite resolve_app.
  destruct (resolve t p) as [[]| |]; done.
Qed.

Lemma kind_of_missing_prefix t x p :
  x `prefix_of` p → kind_of t x = KMissing → kind_of t p = KMissing.
Proof. intros [k Hk]. subst p. apply kind_of_missing_app. Qed.

(** ** The filesystem: [mkdir] *)

Lemma parent_snoc (q : path) c : parent (q ++ [c]) = q.
Proof. unfold parent. apply removelast_last. Qed.

Lemma parent_ne (p : path) : p ≠ [] → parent p ≠ p.
Proof.
  destruct p as [|c p _] using rev_ind; [done|]. intros _.
  rewrite parent_snoc. intros H. apply (f_equal length) in H.
  rewrite length_app in H. simpl in H. lia.
Qed.

(** What [mkdir] does, read off the kinds of the parent and of the path. *)
Lemma fs_mkdir_snoc t q c :
  match fs_mkdir t (q ++ [c]), kind_of t q with
  | inr _, KDir true => kind_of t (q ++ [c]) = KMissing
  | inl EACCES, KDir false => kind_of t (q ++ [c]) = KMissing
  | inl EEXIST, KDir _ => kind_of t (q ++ [c]) ≠ KMissing
  | inl ENOENT, KMissing => True
  | inl ENOTDIR, (KFile _ | KBinary | KSocket | KBlocked) => True
  | _, _ => False
  end.
Proof.
  revert t. induction q as [|c0 q IH]; intros t.
  - simpl. destruct t as [| | |w es]; try done.
    rewrite kind_of_cons_Dir. unfold kind_of at 1. simpl.
    destruct (es !! c) as [n|] eqn:E.
    + destruct w; apply kind_of_nil_not_missing.
    + by destruct w.
  - change ((c0 :: q) ++ [c]) with (c0 :: (q ++ [c])).
    destruct t as [| | |w es]; try (by destruct q).
    rewrite !kind_of_cons_Dir. simpl.
    destruct (q ++ [c]) as [|c1 p1] eqn:Ep; [by destruct q|].
    destruct (es !! c0) as [n|] eqn:E; [|done].
    specialize (IH n).
    destruct (fs_mkdir n (c1 :: p1)); exact IH.
Qed.

(** After a successful [mkdir] the path is an empty writable directory and
    nothing else has changed its kind. *)
Lemma fs_mkdir_kind t p t' :
  fs_mkdir t p = inr t' →
  ∀ q, kind_of t' q = if decide (q = p) then KDir true else kind_of t q.
Proof.
  revert t t'. induction p as [|c p IH]; intros t t'; simpl; [done|].
  destruct t as [| | |w es]; [done|done|done|].
  destruct p as [|c' p'].
  - destruct (es !! c) as [n|] eqn:E; [done|]. destruct w; [|done].
    intros [= <-] q. destruct q as [|c0 q]; [done|].
    rewrite !kind_of_cons_Dir.
    destruct (decide (c0 = c)) as [->|Hne].
    + rewrite lookup_insert_eq, E. destruct q as [|c1 q].
      * by rewrite decide_True.
      * rewrite decide_False by done. rewrite kind_of_cons_Dir.
        by rewrite lookup_empty.
    + rewrite lookup_insert_ne by done.
      rewrite decide_False by congruence. done.
  - destruct (es !! c) as [n|] eqn:E; [|done].
    destruct (fs_mkdir n (c' :: p')) as [e|n'] eqn:Em; [done|].
    intros [= <-] q. destruct q as [|c0 q]; [done|].
    rewrite !kind_of_cons_Dir.
    destruct (decide (c0 = c)) as [->|Hne].
    + rewrite lookup_insert_eq, E. rewrite (IH n n' Em q).
      destruct (decide (q = c' :: p')) as [->|Hq].
      * by rewrite !decide_True by done.
      * by rewrite !decide_False by congruence.
    + rewrite lookup_insert_ne by done.
      rewrite decide_False by congruence. done.
Qed.

Lemma fs_mkdir_inr_inv t p t' :
  fs_mkdir t p = inr t' →
  p ≠ [] ∧ kind_of t (parent p) = KDir true ∧ kind_of t p = KMissing.
Proof.
  destruct p as [|c q _] using rev_ind; [done|]. intros H.
  pose proof (fs_mkdir_snoc t q c) as S. rewrite H in S. rewrite parent_snoc.
  split; [by destruct q|]. destruct (kind_of t q) as [[]| | | | |]; done.
Qed.

Lemma fs_mkdir_ENOENT_inv t p :
  fs_mkdir t p = inl ENOENT → p ≠ [] ∧ kind_of t (parent p) = KMissing.
Proof.
  destruct p as [|c q _] using rev_ind; [done|]. intros H.
  pose proof (fs_mkdir_snoc t q c) as S. rewrite H in S. rewrite parent_snoc.
  split; [by destruct q|]. destruct (kind_of t q) as [[]| | | | |]; done.
Qed.

Lemma fs_mkdir_ok t p :
  p ≠ [] → kind_of t (parent p) = KDir true → kind_of t p = KMissing →
  ∃ t', fs_mkdir t p = inr t'.
Proof.
  destruct p as [|c q _] using rev_ind; [done|]. intros _.
  rewrite parent_snoc. intros Hq Hp.
  pose proof (fs_mkdir_snoc t q c) as S. rewrite Hq in S.
  destruct (fs_mkdir t (q ++ [c])) as [e|t']; [|by eexists].
  destruct e; done.
Qed.

Lemma can_makedirs_snoc t q c :
  can_makedirs t (q ++ [c]) =
    match kind_of t q with
    | KDir w => match kind_of t (q ++ [c]) with KMissing => w | _ => false end
    | KMissing => can_makedirs t q
    | _ => false
    end.
Proof.
  revert t. induction q as [|c0 q IH]; intros t.
  - simpl. destruct t as [| | |w es]; try done.
    rewrite kind_of_cons_Dir. unfold kind_of at 1. simpl.
    destruct (es !! c) as [n|] eqn:E; [|done].
    simpl. pose proof (kind_of_nil_not_missing n).
    destruct n; simpl; by destruct (kind_of _ []).
  - change ((c0 :: q) ++ [c]) with (c0 :: (q ++ [c])).
    destruct t as [| | |w es]; try done.
    rewrite !kind_of_cons_Dir. simpl.
    destruct (es !! c0) as [n|] eqn:E; [apply IH|done].
Qed.

Lemma can_makedirs_missing t p :
  can_makedirs t p = true → kind_of t p = KMissing.
Proof.
  revert t. induction p as [|c p IH]; intros t; simpl; [done|].
  destruct t as [| | |w es]; [done|done|done|]. rewrite kind_of_cons_Dir.
  destruct (es !! c); [apply IH|done].
Qed.

(** ** Worlds that differ in the filesystem and the trace only *)

Lemma extends_id w : extends w (w_fs w) [] = w.
Proof. destruct w. unfold extends. simpl. by rewrite app_nil_r. Qed.

Lemma emit_extends e w : emit e w = extends w (w_fs w) [e].
Proof. done. Qed.

Lemma emit_after_extends e w t evs :
  emit e (extends w t evs) = extends w t (evs ++ [e]).
Proof. unfold emit, extends. simpl. by rewrite <- app_assoc. Qed.

Lemma extends_extends w t1 evs1 t2 evs2 :
  extends (extends w t1 evs1) t2 evs2 = extends w t2 (evs1 ++ evs2).
Proof. unfold extends. simpl. by rewrite app_assoc. Qed.

Lemma extends_fs w t evs : w_fs (extends w t evs) = t.
Proof. done. Qed.

(** ** [Path.mkdir] *)

Lemma os_mkdir_run p w :
  os_mkdir p w =
    match fs_mkdir (w_fs w) p with
    | inr t => (Ok (), extends w t [EvMkdir p])
    | inl e => (Raise (OSError e), extends w (w_fs w) [EvMkdir p])
    end.
Proof. unfold os_mkdir. by destruct (fs_mkdir _ _). Qed.

Lemma Path_mkdir_leaf_run p exist_ok w :
  Path_mkdir_leaf p exist_ok w =
    match fs_mkdir (w_fs w) p with
    | inr t => (Ok (), extends w t [EvMkdir p])
    | inl e =>
        (if bool_decide (e ≠ ENOENT) && exist_ok && fs_is_dir (w_fs w) p
         then Ok () else Raise (OSError e),
         extends w (w_fs w) [EvMkdir p])
    end.
Proof.
  unfold Path_mkdir_leaf. munfold. rewrite os_mkdir_run.
  destruct (fs_mkdir (w_fs w) p) as [e|t]; [|done]. simpl.
  destruct e; simpl; try done;
    destruct exist_ok; simpl; try done;
    by destruct (fs_is_dir (w_fs w) p).
Qed.

Lemma Path_mkdir_parents_run p exist_ok w :
  Path_mkdir_parents p exist_ok w =
    match fs_mkdir (w_fs w) p with
    | inr t => (Ok (), extends w t [EvMkdir p])
    | inl ENOENT =>
        if decide (parent p = p)
        then (Raise (OSError ENOENT), extends w (w_fs w) [EvMkdir p])
        else match Path_mkdir_parents (parent p) true
                     (extends w (w_fs w) [EvMkdir p]) with
             | (Ok _, w2) => Path_mkdir_leaf p exist_ok w2
             | (Raise e', w2) => (Raise e', w2)
             end
    | inl e =>
        (if exist_ok && fs_is_dir (w_fs w) p
         then Ok () else Raise (OSError e),
         extends w (w_fs w) [EvMkdir p])
    end.
Proof.
  match goal with |- _ = ?r => set (rhs := r) end.
  simp Path_mkdir_parents. rewrite os_mkdir_run. subst rhs.
  destruct (fs_mkdir (w_fs w) p) as [e|t]; simpl; [|done].
  destruct e; simpl; try (destruct exist_ok; simpl; try done;
                          by destruct (fs_is_dir (w_fs w) p)).
  destruct (decide (parent p = p)); simpl; [done|].
  destruct (Path_mkdir_parents (parent p) true _) as [[]]; done.
Qed.

Lemma prefix_snoc_cases (x q : path) c :
  x `prefix_of` q ++ [c] → x = q ++ [c] ∨ x `prefix_of` q.
Proof.
  intros [k Hk]. destruct k as [|d k _] using rev_ind.
  - left. by rewrite app_nil_r in Hk.
  - right. rewrite app_assoc in Hk. apply app_inj_tail in Hk as [-> _].
    by apply prefix_app_r.
Qed.

Lemma snoc_not_prefix (q : path) c : ¬ (q ++ [c]) `prefix_of` q.
Proof.
  intros H. apply prefix_length in H. rewrite length_app in H. simpl in H. lia.
Qed.

(** [Path(p).mkdir(parents=True, exist_ok=...)], specified on kinds: when
    [p] can be created the call succeeds and turns [p] and its missing
    ancestors into writable directories, changing nothing else; otherwise
    it leaves the filesystem alone and raises an [OSError], unless
    [exist_ok] is set and [p] is a directory already. *)
Lemma Path_mkdir_parents_spec p : ∀ exist_ok w,
  ∃ r t' evs,
    Path_mkdir_parents p exist_ok w = (r, extends w t' evs) ∧
    Forall (mkdir_event_ok (w_fs w) p) evs ∧
    if can_makedirs (w_fs w) p then
      r = Ok () ∧
      ∀ q, kind_of t' q =
             if bool_decide (q `prefix_of` p ∧ kind_of (w_fs w) q = KMissing)
             then KDir true else kind_of (w_fs w) q
    else
      t' = w_fs w ∧
      if exist_ok && fs_is_dir (w_fs w) p then r = Ok ()
      else ∃ e, r = Raise (OSError e).
Proof.
  induction p as [|c q IH] using rev_ind; intros exist_ok w.
  - rewrite Path_mkdir_parents_run. simpl.
    eexists _, _, _. split; [done|]. split.
    + apply Forall_singleton. exists []. split_and!; [done|done|by left].
    + split; [done|]. destruct (exist_ok && _); [done|by eexists].
  - rewrite Path_mkdir_parents_run.
    pose proof (fs_mkdir_snoc (w_fs w) q c) as S.
    rewrite can_makedirs_snoc.
    assert (Hself : mkdir_event_ok (w_fs w) (q ++ [c]) (EvMkdir (q ++ [c]))).
    { exists (q ++ [c]). split_and!; [done|done|by left]. }
    destruct (fs_mkdir (w_fs w) (q ++ [c])) as [e|t1] eqn:Em.
    + (* the system call failed *)
      assert (Hother : e ≠ ENOENT →
        ∃ r t' evs,
          ((if exist_ok && fs_is_dir (w_fs w) (q ++ [c])
            then Ok () else Raise (OSError e),
            extends w (w_fs w) [EvMkdir (q ++ [c])]) = (r, extends w t' evs)) ∧
          Forall (mkdir_event_ok (w_fs w) (q ++ [c])) evs ∧
          if match kind_of (w_fs w) q with
             | KDir w0 => match kind_of (w_fs w) (q ++ [c]) with
                          | KMissing => w0 | _ => false end
             | KMissing => can_makedirs (w_fs w) q
             | _ => false
             end
          then r = Ok () ∧
               ∀ q0, kind_of t' q0 =
                 if bool_decide (q0 `prefix_of` q ++ [c]
                                 ∧ kind_of (w_fs w) q0 = KMissing)
                 then KDir true else kind_of (w_fs w) q0
          else t' = w_fs w ∧
               if exist_ok && fs_is_dir (w_fs w) (q ++ [c]) then r = Ok ()
               else ∃ e0, r = Raise (OSError e0)).
      { intros Hne. eexists _, _, _. split; [done|].
        split; [by apply Forall_singleton|].
        assert (Hfalse : match kind_of (w_fs w) q with
             | KDir w0 => match kind_of (w_fs w) (q ++ [c]) with
                          | KMissing => w0 | _ => false end
             | KMissing => can_makedirs (w_fs w) q
             | _ => false
             end = false).
        { destruct e; try done;
            destruct (kind_of (w_fs w) q) as [[]| | | | |]; try done;
            by destruct (kind_of (w_fs w) (q ++ [c])). }
        rewrite Hfalse. split; [done|].
        destruct (exist_ok && _); [done|by eexists]. }
      destruct (decide (e = ENOENT)) as [->|Hne];
        [|destruct e; try done; by apply Hother].
      clear Hother.
      destruct (kind_of (w_fs w) q) eqn:Kq; try done. clear S.
      rewrite decide_False by (apply parent_ne; by destruct q).
      rewrite parent_snoc.
      destruct (IH true (extends w (w_fs w) [EvMkdir (q ++ [c])]))
        as (r1 & t2 & evs1 & Hrun & Hevs & Hres).
      rewrite extends_fs in Hevs, Hres. rewrite Hrun, extends_extends.
      assert (Kp : kind_of (w_fs w) (q ++ [c]) = KMissing)
        by (by apply kind_of_missing_app).
      assert (Hevs' : Forall (mkdir_event_ok (w_fs w) (q ++ [c])) evs1).
      { eapply Forall_impl; [exact Hevs|].
        intros ev (x & -> & Hpre & Hx). exists x. split; [done|].
        split; [by apply prefix_app_r|]. right.
        destruct Hx as [->|Hx]; done. }
      destruct (can_makedirs (w_fs w) q) eqn:Cq.
      * destruct Hres as [-> Hk2].
        rewrite Path_mkdir_leaf_run, extends_fs.
        destruct (fs_mkdir_ok t2 (q ++ [c])) as [t3 Ht3].
        { by destruct q. }
        { rewrite parent_snoc, Hk2. rewrite bool_decide_eq_true_2; done. }
        { rewrite Hk2. rewrite bool_decide_eq_false_2; [done|].
          intros [Hpre _]. by apply snoc_not_prefix in Hpre. }
        rewrite Ht3, extends_extends.
        eexists _, _, _. split; [done|]. split.
        { rewrite !Forall_app. split_and!; [by apply Forall_singleton|done|].
          by apply Forall_singleton. }
        split; [done|]. intros x.
        rewrite (fs_mkdir_kind _ _ _ Ht3 x), Hk2.
        destruct (decide (x = q ++ [c])) as [->|Hx].
        { by rewrite bool_decide_eq_true_2. }
        destruct (bool_decide (x `prefix_of` q ∧ _)) eqn:B.
        { apply bool_decide_eq_true_1 in B as [Hpre Hm].
          rewrite bool_decide_eq_true_2; [done|].
          split; [by apply prefix_app_r|done]. }
        { apply bool_decide_eq_false_1 in B.
          rewrite bool_decide_eq_false_2; [done|].
          intros [Hpre Hm]. apply B.
          apply prefix_snoc_cases in Hpre as [->|Hpre]; done. }
      * destruct Hres as [-> Hr1].
        rewrite fs_is_dir_kind, Kq in Hr1. simpl in Hr1.
        destruct Hr1 as [e1 ->].
        eexists _, _, _. split; [done|]. split.
        { apply Forall_app. split; [by apply Forall_singleton|done]. }
        split; [done|]. rewrite fs_is_dir_kind, Kp.
        rewrite andb_false_r. by eexists.
    + (* the system call created the directory *)
      destruct (kind_of (w_fs w) q) as [[]| | | | |] eqn:Kq; try done.
      rewrite S. eexists _, _, _. split; [done|].
      split; [by apply Forall_singleton|]. split; [done|]. intros x.
      rewrite (fs_mkdir_kind _ _ _ Em x).
      destruct (decide (x = q ++ [c])) as [->|Hx].
      * by rewrite bool_decide_eq_true_2.
      * rewrite bool_decide_eq_false_2; [done|].
        intros [Hpre Hm].
        apply prefix_snoc_cases in Hpre as [->|Hpre]; [done|].
        pose proof (kind_of_missing_prefix _ _ _ Hpre Hm) as Hq.
        by rewrite Kq in Hq.
Qed.

(** ** One block of the filesystem bootstrapper *)

Lemma can_mkdir_true t p :
  can_mkdir t p = true → ∃ t', fs_mkdir t p = inr t'.
Proof. unfold can_mkdir. destruct (fs_mkdir t p); [done|by eexists]. Qed.

Lemma ensure_dir_spec fmt p parents w :
  ∃ r t' evs,
    ensure_dir fmt p parents w = (r, extends w t' evs) ∧
    if fs_is_dir (w_fs w) p then r = Ok () ∧ t' = w_fs w ∧ evs = []
    else
      ∃ mk, evs = EvLog INFO fmt [ArgPath p] :: mk ∧
            Forall (mkdir_event_ok (w_fs w) p) mk ∧
            if creatable parents (w_fs w) p then
              r = Ok () ∧
              ∀ q, kind_of t' q =
                     if bool_decide (within parents p q
                                     ∧ kind_of (w_fs w) q = KMissing)
                     then KDir true else kind_of (w_fs w) q
            else t' = w_fs w ∧ ∃ e, r = Raise (OSError e).
Proof.
  unfold ensure_dir. munfold.
  destruct (fs_is_dir (w_fs w) p) eqn:D; simpl.
  { exists (Ok ()), (w_fs w), []. by rewrite extends_id. }
  rewrite emit_extends. unfold Path_mkdir, creatable. destruct parents.
  - destruct (Path_mkdir_parents_spec p false
                (extends w (w_fs w) [EvLog INFO fmt [ArgPath p]]))
      as (r & t' & evs & Hrun & Hevs & Hres).
    rewrite extends_fs in Hevs, Hres. rewrite Hrun, extends_extends.
    eexists _, _, _. split; [done|]. eexists. split; [done|]. split; [done|].
    destruct (can_makedirs (w_fs w) p); [done|]. by destruct Hres.
  - rewrite Path_mkdir_leaf_run, extends_fs. unfold can_mkdir.
    assert (Hself : mkdir_event_ok (w_fs w) p (EvMkdir p)).
    { exists p. split_and!; [done|done|by left]. }
    destruct (fs_mkdir (w_fs w) p) as [e|t'] eqn:Em.
    + rewrite andb_false_r. simpl. rewrite extends_extends.
      eexists _, _, _. split; [done|]. eexists. split; [done|].
      split; [by apply Forall_singleton|]. split; [done|by eexists].
    + rewrite extends_extends.
      eexists _, _, _. split; [done|]. eexists. split; [done|].
      split; [by apply Forall_singleton|]. split; [done|]. intros q.
      rewrite (fs_mkdir_kind _ _ _ Em q).
      apply fs_mkdir_inr_inv in Em as (_ & _ & Kp).
      destruct (decide (q = p)) as [->|Hq].
      * by rewrite bool_decide_eq_true_2.
      * rewrite bool_decide_eq_false_2; [done|]. by intros [? _].
Qed.

(** What a block does, whatever its outcome. *)
Lemma ensure_dir_effect fmt p parents w r w' :
  ensure_dir fmt p parents w = (r, w') →
  ∃ evs,
    w' = extends w (w_fs w') evs ∧
    grows (may_create (fmt, p, parents)) (w_fs w) (w_fs w') ∧
    Forall (bootstrap_event_ok [(fmt, p, parents)] (w_fs w)) evs ∧
    match r with
    | Ok _ => fs_is_dir (w_fs w') p = true
    | Raise e =>
        is_OSError e = true ∧ w_fs w' = w_fs w ∧
        fs_is_dir (w_fs w) p = false ∧ creatable parents (w_fs w) p = false
    end.
Proof.
  destruct (ensure_dir_spec fmt p parents w) as (r0 & t' & evs & Hrun & Hres).
  rewrite Hrun. intros [= <- <-]. exists evs. rewrite extends_fs.
  split; [done|].
  destruct (fs_is_dir (w_fs w) p) eqn:D.
  { destruct Hres as (-> & -> & ->). split_and!; [by left|done|done]. }
  destruct Hres as (mk & -> & Hmk & Hres).
  assert (Hev : Forall (bootstrap_event_ok [(fmt, p, parents)] (w_fs w))
                       (EvLog INFO fmt [ArgPath p] :: mk)).
  { apply Forall_cons. split.
    - split; [done|]. exists p, parents. split_and!; [done| |done].
      apply list_elem_of_singleton. done.
    - eapply Forall_impl; [exact Hmk|].
      intros ev (x & -> & Hpre & [->|Hx]); simpl; [done|].
      rewrite fs_is_dir_kind, Hx. done. }
  destruct (creatable parents (w_fs w) p) eqn:C.
  - destruct Hres as [-> Hk]. split_and!; [|done|].
    + intros q. rewrite Hk.
      destruct (bool_decide _) eqn:B; [|by left].
      apply bool_decide_eq_true_1 in B as [Hq Hm]. right.
      split_and!; [done|done|]. split; [|done].
      intros ->. by apply kind_of_nil_not_missing in Hm.
    + rewrite fs_is_dir_kind, Hk.
      assert (Kp : kind_of (w_fs w) p = KMissing).
      { unfold creatable in C. destruct parents.
        - by apply can_makedirs_missing.
        - apply can_mkdir_true in C as [t0 Ht0].
          by apply fs_mkdir_inr_inv in Ht0 as (_ & _ & ?). }
      rewrite bool_decide_eq_true_2; [done|]. split; [|done].
      unfold within. by destruct parents.
  - destruct Hres as [-> [e ->]]. split_and!; try done. by left.
Qed.

(** ** Trees that only grow *)

Lemma grows_refl allow t : grows allow t t.
Proof. intros q. by left. Qed.

Lemma grows_mono (A B : path → Prop) t t' :
  (∀ q, A q → B q) → grows A t t' → grows B t t'.
Proof.
  intros HAB H q. destruct (H q) as [?|(? & ? & ?)]; [by left|right; auto].
Qed.

Lemma grows_trans allow t1 t2 t3 :
  grows allow t1 t2 → grows allow t2 t3 → grows allow t1 t3.
Proof.
  intros H12 H23 q.
  destruct (H12 q) as [E12|(M1 & D2 & A)], (H23 q) as [E23|(M2 & D3 & A')].
  - left. congruence.
  - right. split_and!; [congruence|done|done].
  - right. split_and!; [done|congruence|done].
  - congruence.
Qed.

(** What exists keeps its kind. *)
Lemma grows_kind allow t t' q :
  grows allow t t' → kind_of t q ≠ KMissing → kind_of t' q = kind_of t q.
Proof. intros H Hq. by destruct (H q) as [?|(? & _)]. Qed.

Lemma grows_is_dir allow t t' q :
  grows allow t t' → fs_is_dir t q = true → fs_is_dir t' q = true.
Proof.
  intros H. rewrite !fs_is_dir_kind. intros Hq.
  rewrite (grows_kind _ _ _ _ H); [done|]. by destruct (kind_of t q).
Qed.

Lemma grows_not_dir allow t t' q :
  grows allow t t' → fs_is_dir t' q = false → fs_is_dir t q = false.
Proof.
  intros H Hq. destruct (fs_is_dir t q) eqn:D; [|done].
  by rewrite (grows_is_dir _ _ _ _ H D) in Hq.
Qed.

(** ** The blocks in sequence *)

Lemma run_steps_cons fmt p parents rest w :
  run_steps ((fmt, p, parents) :: rest) w =
    match ensure_dir fmt p parents w with
    | (Ok _, w1) => run_steps rest w1
    | (Raise e, w1) => (Raise e, w1)
    end.
Proof. simpl. munfold. by destruct (ensure_dir _ _ _ _) as [[]]. Qed.

Lemma bootstrap_event_ok_weaken steps steps' t t' allow ev :
  steps ⊆ steps' → grows allow t' t →
  bootstrap_event_ok steps t ev → bootstrap_event_ok steps' t' ev.
Proof.
  intros Hsub Hg. destruct ev; simpl; try done.
  - intros (-> & p & parents & -> & Hin & Hd). split; [done|].
    exists p, parents. split_and!; [done|by apply Hsub|].
    by eapply grows_not_dir.
  - by eapply grows_not_dir.
Qed.

Lemma run_steps_effect steps : ∀ w r w',
  run_steps steps w = (r, w') →
  ∃ evs,
    w' = extends w (w_fs w') evs ∧
    grows (λ q, ∃ st, st ∈ steps ∧ may_create st q) (w_fs w) (w_fs w') ∧
    Forall (bootstrap_event_ok steps (w_fs w)) evs ∧
    match r with
    | Ok _ => ∀ fmt p parents,
                (fmt, p, parents) ∈ steps → fs_is_dir (w_fs w') p = true
    | Raise e => is_OSError e = true
    end.
Proof.
  induction steps as [|[[fmt p] parents] rest IH]; intros w r w'.
  - intros [= <- <-]. exists []. rewrite extends_id.
    split_and!; [done|apply grows_refl|done|].
    intros ??? H. by apply elem_of_nil in H.
  - rewrite run_steps_cons.
    destruct (ensure_dir fmt p parents w) as [[u|e] w1] eqn:E1.
    + intros Hrest.
      apply ensure_dir_effect in E1 as (evs1 & Hw1 & Hg1 & Hev1 & Hd1).
      destruct (IH _ _ _ Hrest) as (evs2 & Hw' & Hg2 & Hev2 & Hr).
      assert (Hg1' : grows (λ q, ∃ st, st ∈ (fmt, p, parents) :: rest
                                  ∧ may_create st q) (w_fs w) (w_fs w1)).
      { eapply grows_mono; [|exact Hg1]. intros q Hq.
        exists (fmt, p, parents). split; [apply elem_of_cons; by left|done]. }
      assert (Hg2' : grows (λ q, ∃ st, st ∈ (fmt, p, parents) :: rest
                                  ∧ may_create st q) (w_fs w1) (w_fs w')).
      { eapply grows_mono; [|exact Hg2]. intros q (st & Hst & Hq).
        exists st. split; [apply elem_of_cons; by right|done]. }
      exists (evs1 ++ evs2). split_and!.
      * rewrite Hw', Hw1 at 1. by rewrite extends_extends.
      * by eapply grows_trans.
      * apply Forall_app. split.
        { eapply Forall_impl; [exact Hev1|]. intros ev.
          apply (bootstrap_event_ok_weaken _ _ _ _ (λ _, True));
            [|apply grows_refl].
          intros st Hst. apply list_elem_of_singleton in Hst as ->.
          apply elem_of_cons. by left. }
        { eapply Forall_impl; [exact Hev2|]. intros ev.
          eapply bootstrap_event_ok_weaken; [|exact Hg1].
          intros st Hst. apply elem_of_cons. by right. }
      * destruct r as [u'|e]; [|done]. intros fmt0 p0 par0 Hin.
        apply elem_of_cons in Hin as [[= -> -> ->]|Hin]; [|by eapply Hr].
        by eapply grows_is_dir.
    + intros [= <- <-].
      apply ensure_dir_effect in E1 as (evs1 & Hw1 & Hg1 & Hev1 & Hd1).
      exists evs1. split_and!; [done| | |by destruct Hd1].
      * eapply grows_mono; [|exact Hg1]. intros q Hq.
        exists (fmt, p, parents). split; [apply elem_of_cons; by left|done].
      * eapply Forall_impl; [exact Hev1|]. intros ev.
        apply (bootstrap_event_ok_weaken _ _ _ _ (λ _, True));
          [|apply grows_refl].
        intros st Hst. apply list_elem_of_singleton in Hst as ->.
        apply elem_of_cons. by left.
Qed.

(** A run that raises stopped in some block, all blocks before it having
    gone through. *)
Lemma run_steps_raise steps : ∀ w e w',
  run_steps steps w = (Raise e, w') →
  ∃ pre fmt p parents post wj,
    steps = pre ++ (fmt, p, parents) :: post ∧
    run_steps pre w = (Ok (), wj) ∧
    ensure_dir fmt p parents wj = (Raise e, w').
Proof.
  induction steps as [|[[fmt p] parents] rest IH]; intros w e w'; [done|].
  rewrite run_steps_cons.
  destruct (ensure_dir fmt p parents w) as [[[]|e1] w1] eqn:E1.
  - intros Hrest.
    destruct (IH _ _ _ Hrest) as (pre & f & q & b & post & wj & -> & Hpre & Hj).
    exists ((fmt, p, parents) :: pre), f, q, b, post, wj.
    split_and!; [done| |done]. by rewrite run_steps_cons, E1.
  - intros [= <- <-]. by exists [], fmt, p, parents, rest, w.
Qed.

(** Running the blocks again, on any world whose filesystem is the one the
    first run left behind, leaves that filesystem as it is; and if the
    first run went through, the second one does nothing whatsoever. *)
Lemma run_steps_again steps : ∀ w r w',
  run_steps steps w = (r, w') →
  ∀ w2, w_fs w2 = w_fs w' →
    w_fs (snd (run_steps steps w2)) = w_fs w' ∧
    (r = Ok () → run_steps steps w2 = (Ok (), w2)).
Proof.
  induction steps as [|[[fmt p] parents] rest IH]; intros w r w'.
  - intros [= <- <-] w2 H2. done.
  - rewrite run_steps_cons.
    destruct (ensure_dir fmt p parents w) as [[[]|e] w1] eqn:E1.
    + intros Hrest w2 H2.
      apply ensure_dir_effect in E1 as (evs1 & Hw1 & Hg1 & Hev1 & Hd1).
      destruct (run_steps_effect _ _ _ _ Hrest) as (evs & _ & Hg & _ & _).
      pose proof (grows_is_dir _ _ _ _ Hg Hd1) as Hd'.
      rewrite run_steps_cons.
      destruct (ensure_dir_spec fmt p parents w2) as (r2 & t2 & evs2 & -> & S2).
      rewrite H2, Hd' in S2. destruct S2 as (-> & -> & ->).
      rewrite <- H2, extends_id. rewrite H2. by apply (IH _ _ _ Hrest).
    + intros [= <- <-] w2 H2.
      apply ensure_dir_effect in E1 as (evs1 & Hw1 & Hg1 & Hev1 & Hd1).
      destruct Hd1 as (_ & Hfs & Hnd & Hnc).
      rewrite run_steps_cons.
      destruct (ensure_dir_spec fmt p parents w2) as (r2 & t2 & evs2 & -> & S2).
      rewrite H2, Hfs, Hnd, Hnc in S2.
      destruct S2 as (mk & -> & _ & -> & e2 & ->). simpl. done.
Qed.

(** ** [initialize_system_data] is its nine blocks *)

#[local] Arguments run_steps : simpl never.

Lemma initialize_system_data_run {handle} (cs : CoreSys handle) w :
  initialize_system_data cs w =
    match run_steps (required_dirs (cs_config cs)) w with
    | (Ok _, w') => (Ok (cs_config cs), w')
    | (Raise e, w') => (Raise e, w')
    end.
Proof.
  unfold initialize_system_data, required_dirs. munfold. simpl.
  do 9 (rewrite run_steps_cons; unfold ensure_dir at 1; munfold; simpl;
        match goal with
        | |- (let (_, _) := ?m in _) = _ =>
            destruct m as [[[]|?] ?]; [|done]
        end).
  done.
Qed.

(** ** Blocks that are ready stay ready *)

Lemma can_makedirs_grows allow t t' p :
  grows allow t t' → can_makedirs t p = true →
  fs_is_dir t' p = true ∨ can_makedirs t' p = true.
Proof.
  intros Hg. induction p as [|c q IH] using rev_ind; [done|].
  rewrite !can_makedirs_snoc, fs_is_dir_kind.
  destruct (kind_of t q) as [b| | | | |] eqn:Kq; try done.
  - destruct (kind_of t (q ++ [c])) eqn:Kp; try done. intros ->.
    rewrite (grows_kind _ _ _ q Hg) by (by rewrite Kq). rewrite Kq.
    destruct (Hg (q ++ [c])) as [->|(_ & -> & _)]; [|by left].
    rewrite Kp. by right.
  - intros Cq. pose proof (kind_of_missing_app t q [c] Kq) as Kp.
    destruct (IH Cq) as [Dq|Cq'].
    + rewrite fs_is_dir_kind in Dq.
      destruct (Hg q) as [E|(_ & Kq' & _)]; [by rewrite E, Kq in Dq|].
      rewrite Kq'.
      destruct (Hg (q ++ [c])) as [->|(_ & -> & _)]; [|by left].
      rewrite Kp. by right.
    + right. by rewrite (can_makedirs_missing _ _ Cq').
Qed.

Lemma can_mkdir_grows allow t t' p :
  grows allow t t' → can_mkdir t p = true →
  fs_is_dir t' p = true ∨ can_mkdir t' p = true.
Proof.
  intros Hg C. apply can_mkdir_true in C as [t1 H1].
  apply fs_mkdir_inr_inv in H1 as (Hne & Kpar & Kp).
  rewrite fs_is_dir_kind.
  destruct (Hg p) as [E|(_ & -> & _)]; [|by left]. right.
  destruct (fs_mkdir_ok t' p) as [t2 H2]; [done| |congruence|].
  - rewrite (grows_kind _ _ _ _ Hg); [done|by rewrite Kpar].
  - unfold can_mkdir. by rewrite H2.
Qed.

Lemma ready_grows allow t t' st :
  grows allow t t' → ready t st = true → ready t' st = true.
Proof.
  destruct st as [[fmt p] parents]. unfold ready, creatable. intros Hg.
  rewrite !orb_true_iff. intros [D|C].
  - left. by eapply grows_is_dir.
  - destruct parents.
    + destruct (can_makedirs_grows _ _ _ _ Hg C); auto.
    + destruct (can_mkdir_grows _ _ _ _ Hg C); auto.
Qed.

Lemma run_steps_ready steps : ∀ w,
  Forall (λ st, ready (w_fs w) st = true) steps →
  ∃ w', run_steps steps w = (Ok (), w').
Proof.
  induction steps as [|[[fmt p] parents] rest IH]; intros w Hall.
  { by exists w. }
  apply Forall_cons in Hall as [Hst Hrest].
  rewrite run_steps_cons.
  destruct (ensure_dir fmt p parents w) as [[[]|e] w1] eqn:E1.
  - apply ensure_dir_effect in E1 as (evs & _ & Hg & _ & _).
    apply IH. eapply Forall_impl; [exact Hrest|].
    intros st. by apply ready_grows with (allow := may_create (fmt, p, parents)).
  - apply ensure_dir_effect in E1 as (evs & _ & _ & _ & (_ & _ & Hd & Hc)).
    unfold ready in Hst. by rewrite Hd, Hc in Hst.
Qed.

Lemma fs_is_dir_prefix t p q :
  fs_is_dir t p = true → q `prefix_of` p → fs_is_dir t q = true.
Proof.
  intros Hd [k ->]. unfold fs_is_dir in *. rewrite resolve_app in Hd.
  destruct (resolve t q) as [n| |]; [|done|done].
  destruct k as [|c k]; [done|]. by destruct n.
Qed.

(** A path taken by a file or a socket makes [mkdir] fail with EEXIST. *)
Lemma fs_mkdir_occupied t p : occupied t p → fs_mkdir t p = inl EEXIST.
Proof.
  unfold occupied. destruct p as [|c q _] using rev_ind; [done|].
  intros Ho. pose proof (fs_mkdir_snoc t q c) as S.
  assert (∃ b, kind_of t q = KDir b) as [b Kq].
  { unfold kind_of in *. rewrite resolve_app in Ho.
    destruct (resolve t q) as [[]| |]; try done. by eexists. }
  rewrite Kq in S.
  destruct (fs_mkdir t (q ++ [c])) as [[]|t'], b; try done;
    by rewrite S in Ho.
Qed.

Lemma ensure_dir_occupied fmt p parents w :
  occupied (w_fs w) p →
  ensure_dir fmt p parents w =
    (Raise (OSError EEXIST),
     extends w (w_fs w) [EvLog INFO fmt [ArgPath p]; EvMkdir p]).
Proof.
  intros Ho. pose proof (fs_mkdir_occupied _ _ Ho) as Hm.
  unfold ensure_dir. munfold. rewrite fs_is_dir_kind.
  unfold occupied in Ho. destruct (kind_of (w_fs w) p) eqn:K; try done; simpl.
  all: unfold Path_mkdir; destruct parents;
    [rewrite Path_mkdir_parents_run|rewrite Path_mkdir_leaf_run];
    rewrite emit_extends, extends_fs, Hm; simpl;
    by rewrite extends_extends.
Qed.

(** ** The filesystem bootstrapper *)

(** C3, as the code has it.  Run [initialize_system_data] twice against
    the same configuration, from any filesystem.  The second run leaves the
    filesystem the first run produced exactly as it is.  If the first run
    raised nothing, the second raises nothing either, and does nothing at
    all: not a system call, not a log record.  And a run leaves every
    directory that existed before it as it was: the same kind of node, no
    [mkdir] on it, no log record about it. *)
Theorem initialize_system_data_idempotent {handle} (cs : CoreSys handle)
    (w : world) :
  let r1 := initialize_system_data cs w in
  let r2 := initialize_system_data cs (snd r1) in
  w_fs (snd r2) = w_fs (snd r1) ∧
  (∀ cfg, fst r1 = Ok cfg → r2 = (Ok cfg, snd r1)) ∧
  ∃ evs,
    snd r1 = extends w (w_fs (snd r1)) evs ∧
    ∀ q, fs_is_dir (w_fs w) q = true →
         kind_of (w_fs (snd r1)) q = kind_of (w_fs w) q ∧
         (EvMkdir q ∉ evs) ∧
         (∀ lvl fmt, EvLog lvl fmt [ArgPath q] ∉ evs).
Proof.
  intros r1 r2. subst r2 r1. rewrite !initialize_system_data_run.
  destruct (run_steps (required_dirs (cs_config cs)) w) as [r w1] eqn:R.
  destruct (run_steps_again _ _ _ _ R w1 eq_refl) as [Hfs Hok].
  destruct (run_steps_effect _ _ _ _ R) as (evs & Hw1 & Hg & Hev & _).
  assert (Hkept : ∃ evs, w1 = extends w (w_fs w1) evs ∧
            ∀ q, fs_is_dir (w_fs w) q = true →
                 kind_of (w_fs w1) q = kind_of (w_fs w) q ∧
                 (EvMkdir q ∉ evs) ∧
                 (∀ lvl fmt, EvLog lvl fmt [ArgPath q] ∉ evs)).
  { exists evs. split; [done|]. intros q Hq.
    rewrite Forall_forall in Hev. split_and!.
    - apply (grows_kind _ _ _ _ Hg). rewrite fs_is_dir_kind in Hq.
      by destruct (kind_of (w_fs w) q).
    - intros Hin. apply Hev in Hin. simpl in Hin. congruence.
    - intros lvl fmt Hin. apply Hev in Hin.
      destruct Hin as (_ & p & parents & [= <-] & _ & Hd). congruence. }
  destruct r as [[]|e]; simpl.
  - rewrite (Hok eq_refl). split_and!; [done| |done]. by intros cfg [= <-].
  - split_and!; [|done|done]. by destruct (run_steps _ w1) as [[] ?].
Qed.

(** C8. [initialize_system_data] goes through the nine required
    directories in order, with [parents=True] for the add-on data, add-on
    local repository, add-on git repositories and tmp directories and
    without it for the other five.  Whenever every block is ready at the
    start (its directory exists or its [mkdir] can succeed) the run
    succeeds.  After any successful run each of the nine is a directory,
    together with all its ancestors, and the only new nodes are writable
    directories: for a nested entry the path or one of its ancestors, for
    the others the path itself.  A block without [parents] whose parent
    directory is missing raises [FileNotFoundError] and creates nothing; a
    block with [parents] creates the missing ancestors. *)
Theorem initialize_system_data_ensures_dirs {handle} (cs : CoreSys handle)
    (w : world) :
  let steps := required_dirs (cs_config cs) in
  (snd <$> steps = [false; false; true; true; true; true; false; false; false]) ∧
  (Forall (λ st, ready (w_fs w) st = true) steps →
   ∃ w', initialize_system_data cs w = (Ok (cs_config cs), w')) ∧
  (∀ cfg w', initialize_system_data cs w = (Ok cfg, w') →
     cfg = cs_config cs ∧
     (∀ fmt p parents q, (fmt, p, parents) ∈ steps → q `prefix_of` p →
                         fs_is_dir (w_fs w') q = true) ∧
     grows (λ q, ∃ st, st ∈ steps ∧ may_create st q) (w_fs w) (w_fs w')) ∧
  (∀ fmt p w0,
     fs_is_dir (w_fs w0) p = false →
     kind_of (w_fs w0) (parent p) = KMissing →
     ensure_dir fmt p false w0 =
       (Raise (OSError ENOENT),
        extends w0 (w_fs w0) [EvLog INFO fmt [ArgPath p]; EvMkdir p])) ∧
  (∀ fmt p w0,
     can_makedirs (w_fs w0) p = true →
     ∃ w1, ensure_dir fmt p true w0 = (Ok (), w1) ∧
           ∀ q, q `prefix_of` p → fs_is_dir (w_fs w1) q = true).
Proof.
  intros steps. split_and!.
  - done.
  - intros Hready. rewrite initialize_system_data_run.
    destruct (run_steps_ready _ _ Hready) as [w' Hw']. unfold steps in Hw'.
    rewrite Hw'. by exists w'.
  - intros cfg w'. rewrite initialize_system_data_run.
    destruct (run_steps (required_dirs (cs_config cs)) w)
      as [[[]|e] w1] eqn:R; [|done].
    intros [= <- <-].
    destruct (run_steps_effect _ _ _ _ R) as (evs & Hw1 & Hg & Hev & Hd).
    split_and!; [done| |done].
    intros fmt p parents q Hin Hq.
    eapply fs_is_dir_prefix; [|exact Hq]. by eapply Hd.
  - intros fmt p w0 Hd Hpar.
    assert (Hne : p ≠ []).
    { intros ->. by apply kind_of_nil_not_missing in Hpar. }
    assert (Hm : fs_mkdir (w_fs w0) p = inl ENOENT).
    { destruct p as [|c q _] using rev_ind; [done|].
      rewrite parent_snoc in Hpar.
      pose proof (fs_mkdir_snoc (w_fs w0) q c) as S. rewrite Hpar in S.
      by destruct (fs_mkdir (w_fs w0) (q ++ [c])) as [[]|]. }
    unfold ensure_dir. munfold. rewrite Hd. simpl. unfold Path_mkdir.
    rewrite Path_mkdir_leaf_run, emit_extends, extends_fs, Hm. simpl.
    by rewrite extends_extends.
  - intros fmt p w0 Hc.
    destruct (ensure_dir fmt p true w0) as [r w1] eqn:E.
    apply ensure_dir_effect in E as (evs & _ & _ & _ & Hr).
    destruct r as [[]|e].
    + exists w1. split; [done|]. intros q Hq. by eapply fs_is_dir_prefix.
    + destruct Hr as (_ & _ & _ & Hnc). unfold creatable in Hnc. congruence.
Qed.

(** C10. [is_dir] is what decides.  If one of the required paths is
    taken by a file or a socket, the check for it fails and the run raises
    an [OSError]: in the block of that path or in an earlier one.  The
    blocks before the failing one went through, the failing [mkdir]
    changed nothing, and no block after it ran, so every new directory
    belongs to a block before the failing one.  When it is the block of
    the occupied path that fails, the error is [FileExistsError], raised by
    the [os.mkdir] on that path right after the info record. *)
Theorem initialize_system_data_aborts_on_occupied {handle}
    (cs : CoreSys handle) (w : world) (k : nat)
    (fmt : string) (p : path) (parents : bool) :
  required_dirs (cs_config cs) !! k = Some (fmt, p, parents) →
  occupied (w_fs w) p →
  fs_is_dir (w_fs w) p = false ∧
  ∃ (j : nat) wj e w',
    (j ≤ k)%nat ∧
    run_steps (take j (required_dirs (cs_config cs))) w = (Ok (), wj) ∧
    initialize_system_data cs w = (Raise (OSError e), w') ∧
    w_fs w' = w_fs wj ∧
    grows (λ q, ∃ st, st ∈ take j (required_dirs (cs_config cs))
                      ∧ may_create st q) (w_fs w) (w_fs w') ∧
    (j = k →
     e = EEXIST ∧
     w' = extends wj (w_fs wj) [EvLog INFO fmt [ArgPath p]; EvMkdir p]).
Proof.
  intros Hk Ho.
  assert (Hnm : kind_of (w_fs w) p ≠ KMissing).
  { unfold occupied in Ho. by destruct (kind_of (w_fs w) p). }
  assert (Hnd : ∀ allow t', grows allow (w_fs w) t' → fs_is_dir t' p = false).
  { intros allow t' Hg. rewrite fs_is_dir_kind, (grows_kind _ _ _ _ Hg Hnm).
    unfold occupied in Ho. by destruct (kind_of (w_fs w) p). }
  split; [by apply (Hnd (λ _, True)), grows_refl|].
  pose proof (initialize_system_data_run cs w) as Hrun.
  set (steps := required_dirs (cs_config cs)) in *.
  destruct (run_steps steps w) as [[[]|e] w'] eqn:R.
  { destruct (run_steps_effect _ _ _ _ R) as (evs & _ & Hg & _ & Hd).
    apply list_elem_of_lookup_2 in Hk. apply Hd in Hk.
    by rewrite (Hnd _ _ Hg) in Hk. }
  destruct (run_steps_raise _ _ _ _ R)
    as (pre & fmt0 & p0 & par0 & post & wj & Hsplit & Hpre & Hj).
  destruct (run_steps_effect _ _ _ _ Hpre) as (evs & _ & Hg & _ & Hd).
  pose proof Hj as Hj'.
  apply ensure_dir_effect in Hj' as (evs' & _ & _ & _ & (He & Hfs & _ & _)).
  destruct e as [e| | | | | |]; try done.
  assert (Htake : take (length pre) steps = pre).
  { rewrite Hsplit. by rewrite take_app_length. }
  exists (length pre), wj, e, w'. rewrite Htake.
  assert (Hle : (length pre ≤ k)%nat).
  { destruct (decide (length pre ≤ k)%nat) as [|Hgt]; [done|].
    assert (pre !! k = Some (fmt, p, parents)) as Hin.
    { rewrite Hsplit in Hk. rewrite lookup_app_l in Hk by lia. done. }
    apply list_elem_of_lookup_2 in Hin. apply Hd in Hin.
    by rewrite (Hnd _ _ Hg) in Hin. }
  split_and!; [done|done|done|done|by rewrite Hfs|].
  intros <-. clear Hrun. rewrite Hsplit in Hk.
  rewrite list_lookup_middle in Hk by done. injection Hk as -> -> ->.
  rewrite ensure_dir_occupied in Hj.
  - by injection Hj as <- <-.
  - unfold occupied in *. by rewrite (grows_kind _ _ _ _ Hg Hnm).
Qed.

(** ** The composition root *)

Lemma all_subsystems_trace w :
  emit (EvConstruct hassos) (emit (EvConstruct dbus)
    (emit (EvConstruct discovery) (emit (EvConstruct services)
    (emit (EvConstruct tasks) (emit (EvConstruct host)
    (emit (EvConstruct snapshots) (emit (EvConstruct addons)
    (emit (EvConstruct homeassistant) (emit (EvConstruct supervisor)
    (emit (EvConstruct api) (emit (EvConstruct updater)
    (emit (EvConstruct core) w))))))))))))
  = extends w (w_fs w) (EvConstruct <$> all_subsystems).
Proof.
  rewrite (emit_extends (EvConstruct core) w).
  by rewrite !emit_after_extends.
Qed.

Lemma all_subsystems_complete s : s ∈ all_subsystems.
Proof. destruct s; unfold all_subsystems; set_solver. Qed.

Section CompositionRoot.
Context {handle : Type}.
Variable the_config : CoreConfig.
Variable construct : subsystem → CoreSys handle → world → result handle.

Lemma construct_and_bootstrap_ok loop w cs w1 :
  construct_and_bootstrap the_config construct loop w = (Ok cs, w1) →
  cs_config cs = the_config ∧
  cs_machine_id cs = None ∧
  (∀ s, is_Some (cs_slots cs !! s)) ∧
  initialize_system_data cs
    (extends w (w_fs w) (EvConstruct <$> all_subsystems))
    = (Ok the_config, w1).
Proof.
  unfold construct_and_bootstrap, new. munfold. cbv beta zeta.
  do 13 (match goal with
         | |- context [construct ?s ?c ?w0] =>
             destruct (construct s c w0) as [?h|?e]; [|done]
         end).
  rewrite all_subsystems_trace.
  match goal with
  | |- context [initialize_system_data ?c ?w0] =>
      pose proof (initialize_system_data_run c w0) as Hrun;
      destruct (initialize_system_data c w0) as [[cfg|e] w2] eqn:Hinit;
        [|done]
  end.
  intros [= <- <-].
  split_and!; [done|done| |].
  - intros s. destruct s; simpl; by simplify_map_eq.
  - rewrite Hinit. destruct (run_steps _ _) as [[[]|] ?]; [|done].
    by injection Hrun as -> ->.
Qed.

Lemma initialize_coresys_split loop w :
  initialize_coresys the_config construct loop w =
    match construct_and_bootstrap the_config construct loop w with
    | (Ok cs, w1) => machine_id_step cs w1
    | (Raise e, w1) => (Raise e, w1)
    end.
Proof.
  unfold initialize_coresys, construct_and_bootstrap, new. munfold.
  cbv beta zeta.
  do 13 (match goal with
         | |- context [construct ?s ?c ?w0] =>
             destruct (construct s c w0) as [?h|?e]; [|done]
         end).
  match goal with
  | |- context [initialize_system_data ?c ?w0] =>
      destruct (initialize_system_data c w0) as [[cfg|e] w2]; [|done]
  end.
  unfold machine_id_step, Path_read_text.
  destruct (fs_exists (w_fs w2) MACHINE_ID); [|done].
  by destruct (fs_read_text (w_fs w2) MACHINE_ID).
Qed.

Lemma machine_id_step_effect (cs cs' : CoreSys handle) w w' :
  machine_id_step cs w = (Ok cs', w') →
  cs_slots cs' = cs_slots cs ∧
  (w' = w ∨ w' = extends w (w_fs w) [EvReadText MACHINE_ID]).
Proof.
  unfold machine_id_step. destruct (fs_exists _ _).
  - destruct (fs_read_text _ _); [done|]. intros [= <- <-]. split; [done|].
    by right.
  - intros [= <- <-]. split; [done|by left].
Qed.

(** C7. When [initialize_coresys] returns a context, every one of the
    thirteen subsystem names has an object registered in it.  All
    thirteen constructors were called, in declaration order, before the
    filesystem bootstrapper started: the bootstrapper ran in a world whose
    trace already held the thirteen constructor calls, the host
    identifier step ran on what the bootstrapper left, and no
    constructor call comes after that point. *)
Theorem initialize_coresys_complete loop w cs w' :
  initialize_coresys the_config construct loop w = (Ok cs, w') →
  (∀ s, s ∈ all_subsystems ∧ is_Some (cs_slots cs !! s)) ∧
  ∃ cs1 w1 evs,
    initialize_system_data cs1
      (extends w (w_fs w) (EvConstruct <$> all_subsystems))
      = (Ok the_config, w1) ∧
    machine_id_step cs1 w1 = (Ok cs, w') ∧
    w' = extends w (w_fs w') ((EvConstruct <$> all_subsystems) ++ evs) ∧
    ∀ s, EvConstruct s ∉ evs.
Proof.
  rewrite initialize_coresys_split.
  destruct (construct_and_bootstrap the_config construct loop w)
    as [[cs1|e] w1] eqn:B; [|done].
  intros Hstep.
  apply construct_and_bootstrap_ok in B as (Hcfg & _ & Hslots & Hboot).
  pose proof (machine_id_step_effect _ _ _ _ Hstep) as [Hs Hw'].
  split.
  { intros s. split; [apply all_subsystems_complete|].
  rewrite Hs. apply Hslots. }
  pose proof Hboot as Hrun. rewrite initialize_system_data_run in Hrun.
  destruct (run_steps _ _) as [[[]|] w2] eqn:R; [|done].
  injection Hrun as _ ->.
  destruct (run_steps_effect _ _ _ _ R) as (evs1 & Hw1 & _ & Hev & _).
  rewrite extends_fs in Hev. rewrite extends_extends in Hw1.
  assert (Hno : ∀ s, EvConstruct s ∉ evs1).
  { intros s Hin. rewrite Forall_forall in Hev. by apply Hev in Hin. }
  destruct Hw' as [->| ->].
  - exists cs1, w1, evs1. split_and!; done.
  - exists cs1, w1, (evs1 ++ [EvReadText MACHINE_ID]).
    split_and!; [done|done| |].
    + rewrite Hw1 at 1. rewrite extends_extends, extends_fs.
      by rewrite <- app_assoc.
    + intros s Hin. apply elem_of_app in Hin as [Hin|Hin].
      * by apply (Hno s).
      * by apply list_elem_of_singleton in Hin.
Qed.

(** C4. Take a run of [initialize_coresys] that got as far as the host
    identifier step: the constructors and the filesystem bootstrap went
    through, leaving a context [cs] and a world [w1].  The context has no
    host identifier at that point.  If [/etc/machine-id] does not exist
    then, [initialize_coresys] returns that same context, unset
    identifier included, without raising and without touching the world:
    nothing is logged.  If it is a file, the identifier becomes its text
    with the surrounding whitespace stripped; a file with ["abc123\n"] at
    the start of the run gives ["abc123"]. *)
Theorem initialize_coresys_machine_id loop w cs w1 :
  construct_and_bootstrap the_config construct loop w = (Ok cs, w1) →
  cs_machine_id cs = None ∧
  (fs_exists (w_fs w1) MACHINE_ID = false →
   initialize_coresys the_config construct loop w = (Ok cs, w1)) ∧
  (∀ s, kind_of (w_fs w) MACHINE_ID = KFile s →
        initialize_coresys the_config construct loop w
        = (Ok (set_machine_id (py_strip s) cs),
           emit (EvReadText MACHINE_ID) w1)) ∧
  (kind_of (w_fs w) MACHINE_ID = KFile ("abc123" +:+ newline) →
   ∃ cs' w', initialize_coresys the_config construct loop w = (Ok cs', w')
             ∧ cs_machine_id cs' = Some "abc123").
Proof.
  intros B.
assert (Hsplit : initialize_coresys the_config construct loop w
                 = machine_id_step cs w1)
  by (by rewrite initialize_coresys_split, B).
apply construct_and_bootstrap_ok in B as (Hcfg & Hid & _ & Hboot).
assert (Hfile : ∀ s, kind_of (w_fs w) MACHINE_ID = KFile s →
          machine_id_step cs w1
          = (Ok (set_machine_id (py_strip s) cs),
             emit (EvReadText MACHINE_ID) w1)).
{ intros s Hs. rewrite initialize_system_data_run in Hboot.
  destruct (run_steps _ _) as [[[]|] w2] eqn:R; [|done].
  injection Hboot as _ ->.
  destruct (run_steps_effect _ _ _ _ R) as (evs1 & _ & Hg & _ & _).
  rewrite extends_fs in Hg.
  assert (Hk : kind_of (w_fs w1) MACHINE_ID = KFile s).
  { rewrite (grows_kind _ _ _ _ Hg); [done|by rewrite Hs]. }
  unfold machine_id_step, fs_exists, fs_read_text. unfold kind_of in Hk.
  destruct (resolve (w_fs w1) MACHINE_ID) as [[]| |]; try done.
  by injection Hk as ->. }
split_and!.
- done.
- intros He. rewrite Hsplit. unfold machine_id_step. by rewrite He.
- intros s Hs. rewrite Hsplit. by apply Hfile.
- intros Hs. rewrite Hsplit, (Hfile _ Hs). by eexists _, _.
Qed.

End CompositionRoot.

(** ** The theorems at work on concrete worlds *)

(** [mkdir(parents=True)] climbs to the first ancestor that can be
    created and comes back down, one [os.mkdir] at a time. *)
Example Path_mkdir_parents_trace :
  let r := Path_mkdir_parents ["a"; "b"; "c"] false
             (World (Dir true ∅) ∅ ∅ ∅ ∅ []) in
  fst r = Ok () ∧
  w_trace (snd r) = [EvMkdir ["a"; "b"; "c"]; EvMkdir ["a"; "b"]; EvMkdir ["a"];
                     EvMkdir ["a"; "b"]; EvMkdir ["a"; "b"; "c"]] ∧
  fs_is_dir (w_fs (snd r)) ["a"; "b"; "c"] = true.
Proof. vm_compute. done. Qed.

(** Without [parents] a missing parent is an error. *)
Example Path_mkdir_leaf_missing_parent :
  fst (Path_mkdir ["a"; "b"] false (World (Dir true ∅) ∅ ∅ ∅ ∅ []))
  = Raise (OSError ENOENT).
Proof. vm_compute. reflexivity. Qed.

(** A first boot creates the whole layout and logs each creation. *)
Example first_boot_layout :
  let r := initialize_system_data stock_context anonymous_world in
  fst r = Ok stock_config ∧
  length (List.filter (λ ev, if ev is EvLog INFO _ _ then true else false)
                      (w_trace (snd r))) = 9 ∧
  fs_is_dir (w_fs (snd r)) ["data"; "addons"] = true.
Proof. vm_compute. done. Qed.

Example py_strip_both_ends :
  py_strip (" " +:+ newline +:+ "abc 123" +:+ newline +:+ " ") = "abc 123".
Proof. vm_compute. reflexivity. Qed.

(** With nothing in the environment both SUPERVISOR_SHARE and
    SUPERVISOR_NAME are missing, and only the first is reported: it is not
    true that every failing condition gets its fatal record. *)
Lemma check_environment_reports_one_failure :
  ¬ (∀ c, c ∈ conditions →
          passes stock_socket anonymous_world c = false →
          fatal_record c ∈
            w_trace (snd (check_environment stock_socket anonymous_world))).
Proof.
  intros H. specialize (H (CondEnv ENV_NAME)).
  assert (Hin : CondEnv ENV_NAME ∈ conditions).
  { unfold conditions. apply elem_of_cons. right. apply elem_of_cons. by left. }
  specialize (H Hin eq_refl). vm_compute in H.
  apply list_elem_of_singleton in H. discriminate H.
Qed.

(** With [/data/ssl] a regular file the first run raises, and so does the
    second: it is not true that a second run raises nothing from every
    starting filesystem. *)
Lemma initialize_system_data_second_run_raises :
  fst (initialize_system_data stock_context
         (snd (initialize_system_data stock_context ssl_is_a_file_world)))
  = Raise (OSError EEXIST).
Proof. vm_compute. reflexivity. Qed.

Lemma is_Ok_returned {A} (d : A) (r : result A * world) :
  is_Ok (fst r) = true → r = (Ok (returned d (fst r)), snd r).
Proof. by destruct r as [[a|e] w]. Qed.

Lemma initialize_coresys_machine_id_witness :
  cs_machine_id
    (returned stock_context
       (fst (construct_and_bootstrap stock_config stock_construct 0
               fresh_world))) = None ∧
  ∃ cs' w',
    initialize_coresys stock_config stock_construct 0 fresh_world = (Ok cs', w')
    ∧ cs_machine_id cs' = Some "abc123".
Proof.
  assert (Hok : is_Ok (fst (construct_and_bootstrap stock_config
                              stock_construct 0 fresh_world)) = true)
    by (vm_compute; reflexivity).
  assert (Hfile : kind_of (w_fs fresh_world) MACHINE_ID
                  = KFile ("abc123" +:+ newline))
    by (vm_compute; reflexivity).
  pose proof (initialize_coresys_machine_id stock_config stock_construct 0
                fresh_world _ _ (is_Ok_returned stock_context _ Hok))
    as (Hnone & _ & _ & Hid).
  exact (conj Hnone (Hid Hfile)).
Defined.

Lemma reg_signal_degrades_per_signal_witness :
  ∃ w',
    reg_signal 0 no_sighup_world = (Ok (), w') ∧
    emitted no_sighup_world w'
      (bind_events no_sighup_world SIGTERM ++ bind_events no_sighup_world SIGHUP
       ++ bind_events no_sighup_world SIGINT) ∧
    (∀ s, w_sig_handlers w' !! s =
            match w_sig_refused no_sighup_world !! s with
            | Some _ => w_sig_handlers no_sighup_world !! s
            | None => Some Call_soon_loop_stop
            end) ∧
    w_fs w' = w_fs no_sighup_world.
Proof.
  apply (reg_signal_degrades_per_signal 0 no_sighup_world).
  intros s e. destruct s; vm_compute; intros H.
  - discriminate H.
  - injection H as <-. reflexivity.
  - discriminate H.
Defined.

Lemma migrate_system_env_never_blocks_witness :
  ∃ w', migrate_system_env stock_context leftover_world = (Ok (), w') ∧
        w_fs w' = w_fs leftover_world ∧
        emitted leftover_world w'
          [EvRmdir ["data"; "addons"; "build"];
           EvLog WARNING "Can't cleanup old addons build dir." []].
Proof.
  destruct (migrate_system_env_never_blocks stock_context leftover_world)
    as [_ H].
  apply (H eq_refl ENOTEMPTY). vm_compute. reflexivity.
Defined.

Lemma initialize_coresys_complete_witness :
  is_Ok (fst (initialize_coresys stock_config stock_construct 0 fresh_world))
    = true ∧
  ∀ s, s ∈ all_subsystems ∧
       is_Some (cs_slots
                  (returned stock_context
                     (fst (initialize_coresys stock_config stock_construct 0
                             fresh_world))) !! s).
Proof.
  assert (Hok : is_Ok (fst (initialize_coresys stock_config stock_construct 0
                              fresh_world)) = true)
    by (vm_compute; reflexivity).
  exact (conj Hok
           (proj1 (initialize_coresys_complete stock_config stock_construct 0
                     fresh_world _ _ (is_Ok_returned stock_context _ Hok)))).
Defined.

Lemma initialize_system_data_ensures_dirs_witness :
  ∃ w', initialize_system_data stock_context anonymous_world
        = (Ok stock_config, w').
Proof.
  destruct (initialize_system_data_ensures_dirs stock_context anonymous_world)
    as (_ & H & _).
  apply H. repeat (apply Forall_cons; split; [vm_compute; reflexivity|]).
  apply Forall_nil. exact I.
Defined.

Lemma migrate_system_env_keeps_nonempty_witness :
  ∃ w', migrate_system_env stock_context leftover_world = (Ok (), w') ∧
        w_fs w' = w_fs leftover_world ∧
        emitted leftover_world w'
          [EvRmdir ["data"; "addons"; "build"];
           EvLog WARNING "Can't cleanup old addons build dir." []].
Proof.
  apply (migrate_system_env_keeps_nonempty stock_context leftover_world
           true {[ "Dockerfile" := File "" ]}).
  - vm_compute. reflexivity.
  - apply insert_non_empty.
Defined.

Lemma initialize_system_data_aborts_on_occupied_witness :
  fs_is_dir (w_fs ssl_is_a_file_world) ["data"; "ssl"] = false ∧
  ∃ (j : nat) wj e w',
    (j ≤ 1)%nat ∧
    run_steps (take j (required_dirs stock_config)) ssl_is_a_file_world
      = (Ok (), wj) ∧
    initialize_system_data stock_context ssl_is_a_file_world
      = (Raise (OSError e), w') ∧
    w_fs w' = w_fs wj ∧
    grows (λ q, ∃ st, st ∈ take j (required_dirs stock_config)
                      ∧ may_create st q)
          (w_fs ssl_is_a_file_world) (w_fs w') ∧
    (j = 1 →
     e = EEXIST ∧
     w' = extends wj (w_fs wj)
            [EvLog INFO "Create hassio ssl folder %s" [ArgPath ["data"; "ssl"]];
             EvMkdir ["data"; "ssl"]]).
Proof.
  apply (initialize_system_data_aborts_on_occupied stock_context
           ssl_is_a_file_world 1 "Create hassio ssl folder %s"
           ["data"; "ssl"] false).
  - reflexivity.
  - vm_compute. exact I.
Defined.

(** * Further properties *)

(** ** The filesystem: [rmdir] *)

Lemma parent_cons c (p : path) : p ≠ [] → parent (c :: p) = c :: parent p.
Proof. unfold parent. by destruct p. Qed.

(** After a successful [rmdir] the path is gone and nothing else has
    changed its kind. *)
Lemma fs_rmdir_kind t p t' :
  fs_rmdir t p = inr t' →
  ∀ q, kind_of t' q = if decide (q = p) then KMissing else kind_of t q.
Proof.
  revert t t'. induction p as [|c p IH]; intros t t'; simpl; [done|].
  destruct t as [| | |w es]; [done|done|done|].
  destruct (es !! c) as [n|] eqn:E; [|done].
  destruct p as [|c' p'].
  - destruct w; simpl; [|done]. destruct n as [| | |b es']; [done|done|done|].
    case_decide as Hes; [|done]. subst es'.
    intros [= <-] q. destruct q as [|c0 q]; [done|].
    rewrite !kind_of_cons_Dir.
    destruct (decide (c0 = c)) as [->|Hne].
    + rewrite lookup_delete_eq, E. destruct q as [|c1 q].
      * by rewrite decide_True.
      * rewrite decide_False by done. rewrite kind_of_cons_Dir.
        by rewrite lookup_empty.
    + rewrite lookup_delete_ne by done.
      rewrite decide_False by congruence. done.
  - destruct (fs_rmdir n (c' :: p')) as [e|n'] eqn:Em; [done|].
    intros [= <-] q. destruct q as [|c0 q]; [done|].
    rewrite !kind_of_cons_Dir.
    destruct (decide (c0 = c)) as [->|Hne].
    + rewrite lookup_insert_eq, E. rewrite (IH n n' Em q).
      destruct (decide (q = c' :: p')) as [->|Hq].
      * by rewrite !decide_True by done.
      * by rewrite !decide_False by congruence.
    + rewrite lookup_insert_ne by done.
      rewrite decide_False by congruence. done.
Qed.

Lemma fs_rmdir_deeper w es c c' p' :
  fs_rmdir (Dir w es) (c :: c' :: p') =
    match es !! c with
    | None => inl ENOENT
    | Some n =>
        match fs_rmdir n (c' :: p') with
        | inr n' => inr (Dir w (<[c := n']> es))
        | inl e => inl e
        end
    end.
Proof. done. Qed.

(** An empty directory in a writable parent can be removed. *)
Lemma fs_rmdir_ok t p b :
  p ≠ [] → resolve t p = Found (Dir b ∅) →
  kind_of t (parent p) = KDir true →
  ∃ t', fs_rmdir t p = inr t'.
Proof.
  revert t. induction p as [|c p IH]; intros t Hne; [done|].
  destruct t as [| | |w es]; [done|done|done|].
  destruct p as [|c' p'].
  - simpl. destruct (es !! c) as [n|] eqn:E; [|done].
    intros [= ->]. unfold parent, kind_of. simpl. intros [= ->]. simpl.
    rewrite decide_True by done. by eexists.
  - rewrite parent_cons by done. rewrite kind_of_cons_Dir, fs_rmdir_deeper.
    cbn [resolve]. destruct (es !! c) as [n|] eqn:E; [|done].
    intros Hres Hpar. destruct (IH n) as [n' Hn']; [done|done|done|].
    rewrite Hn'. by eexists.
Qed.

Lemma fs_is_socket_kind t p :
  fs_is_socket t p = match kind_of t p with KSocket => true | _ => false end.
Proof.
  unfold fs_is_socket, kind_of. by destruct (resolve t p) as [[]| |].
Qed.

(** ** The legacy state migrator, beyond the failure case *)

(** X1. [migrate_system_env] never raises, whatever the world.  It
    leaves the environment, the search path and the loop alone, and on the
    filesystem the only thing it can do is make the legacy directory
    disappear: every other path keeps its kind. *)
Theorem migrate_system_env_total_and_local {handle} (cs : CoreSys handle)
    (w : world) :
  let old := old_build_dir (cs_config cs) in
  ∃ w' evs,
    migrate_system_env cs w = (Ok (), w') ∧
    w' = extends w (w_fs w') evs ∧
    (∀ q, q ≠ old → kind_of (w_fs w') q = kind_of (w_fs w) q) ∧
    (kind_of (w_fs w') old = kind_of (w_fs w) old ∨
     (kind_of (w_fs w') old = KMissing ∧ ∃ b, kind_of (w_fs w) old = KDir b)).
Proof.
  intros old. rewrite migrate_system_env_run. fold old.
  destruct (fs_is_dir (w_fs w) old) eqn:D.
  - destruct (fs_rmdir (w_fs w) old) as [e|t] eqn:R.
    + eexists _, [EvRmdir old; EvLog WARNING _ []].
      split_and!; [done| |done|by left].
      by rewrite (emit_extends (EvRmdir old) w), emit_after_extends.
    + exists (set_fs t (emit (EvRmdir old) w)), [EvRmdir old].
      pose proof (fs_rmdir_kind _ _ _ R) as Hk. simpl.
      split_and!; [done|done| |].
      * intros q Hq. by rewrite Hk, decide_False.
      * right. rewrite Hk, decide_True by done. split; [done|].
        rewrite fs_is_dir_kind in D. destruct (kind_of (w_fs w) old); try done.
        by eexists.
  - exists w, []. rewrite extends_id. split_and!; [done|done|done|by left].
Qed.

(** X2. When the legacy directory is an empty directory in a writable
    parent, [migrate_system_env] removes it without a word: one [rmdir],
    no log record, the path is gone afterwards, and a second run finds
    nothing to do. *)
Theorem migrate_system_env_removes_empty {handle} (cs : CoreSys handle)
    (w : world) (b : bool) :
  let old := old_build_dir (cs_config cs) in
  resolve (w_fs w) old = Found (Dir b ∅) →
  kind_of (w_fs w) (parent old) = KDir true →
  ∃ w', migrate_system_env cs w = (Ok (), w') ∧
        emitted w w' [EvRmdir old] ∧
        kind_of (w_fs w') old = KMissing ∧
        migrate_system_env cs w' = (Ok (), w').
Proof.
  intros old Hres Hpar.
  assert (Hne : old ≠ []).
  { unfold old, old_build_dir. by destruct (path_hassio (cs_config cs)). }
  destruct (fs_rmdir_ok _ _ _ Hne Hres Hpar) as [t Ht].
  pose proof (fs_rmdir_kind _ _ _ Ht old) as Hk.
  rewrite decide_True in Hk by done.
  exists (set_fs t (emit (EvRmdir old) w)).
  rewrite !migrate_system_env_run. fold old.
  unfold fs_is_dir at 1. rewrite Hres, Ht. simpl.
  split_and!; [done|done|done|].
  by rewrite fs_is_dir_kind, Hk.
Qed.

(** X3. Running the migrator after a successful filesystem bootstrap
    does not undo it: unless the configuration names the legacy directory
    itself as one of the required directories, all nine are still
    directories afterwards. *)
Theorem migrate_system_env_keeps_required_dirs {handle} (cs : CoreSys handle)
    (w : world) (cfg : CoreConfig) (w1 : world) :
  initialize_system_data cs w = (Ok cfg, w1) →
  old_build_dir (cs_config cs) ∉ required_paths (cs_config cs) →
  ∀ p, p ∈ required_paths (cs_config cs) →
       fs_is_dir (w_fs (snd (migrate_system_env cs w1))) p = true.
Proof.
  intros Hinit Hold p Hp.
  rewrite initialize_system_data_run in Hinit.
  destruct (run_steps _ _) as [[[]|] w2] eqn:R; [|done].
  injection Hinit as _ ->.
  destruct (run_steps_effect _ _ _ _ R) as (_ & _ & _ & _ & Hd).
  destruct (migrate_system_env_total_and_local cs w1)
    as (w' & evs & -> & _ & Hk & _).
  simpl. rewrite fs_is_dir_kind, Hk, <- fs_is_dir_kind.
  - unfold required_paths in Hp. apply list_elem_of_fmap in Hp
      as ([[fmt p0] par] & -> & Hin). by eapply Hd.
  - intros ->. done.
Qed.

(** ** The preflight validator and its neighbours *)

Lemma find_ext_in {A} (f g : A → bool) (l : list A) :
  (∀ x, x ∈ l → f x = g x) → List.find f l = List.find g l.
Proof.
  induction l as [|a l IH]; intros H; [done|]. simpl.
  rewrite (H a) by (apply elem_of_cons; by left).
  rewrite IH; [done|]. intros x Hx. apply H. apply elem_of_cons. by right.
Qed.

Lemma first_failing_ext sock sock' w w' :
  (∀ c, c ∈ conditions → passes sock' w' c = passes sock w c) →
  first_failing sock' w' = first_failing sock w.
Proof.
  intros H. unfold first_failing. apply find_ext_in.
  intros c Hc. by rewrite (H c Hc).
Qed.

Lemma check_environment_ext sock sock' w w' :
  (∀ c, c ∈ conditions → passes sock' w' c = passes sock w c) →
  fst (check_environment sock' w') = fst (check_environment sock w) ∧
  ∃ evs, emitted w (snd (check_environment sock w)) evs ∧
         emitted w' (snd (check_environment sock' w')) evs.
Proof.
  intros H. rewrite !check_environment_run, (first_failing_ext _ _ _ _ H).
  destruct (first_failing sock w) as [c|].
  - split; [done|]. by exists [fatal_record c].
  - split; [done|]. exists []. unfold emitted. by rewrite !app_nil_r.
Qed.

(** X4. The validator looks at which variables and programs are there,
    never at their values: two hosts with the same variables set (to
    whatever), the same programs found (wherever) and the socket in the same
    state get the same verdict and the same log records. *)
Theorem check_environment_presence_only (sock : path) (w1 w2 : world) :
  dom (w_environ w1) = dom (w_environ w2) →
  dom (w_which w1) = dom (w_which w2) →
  fs_is_socket (w_fs w1) sock = fs_is_socket (w_fs w2) sock →
  fst (check_environment sock w1) = fst (check_environment sock w2) ∧
  ∃ evs, emitted w1 (snd (check_environment sock w1)) evs ∧
         emitted w2 (snd (check_environment sock w2)) evs.
Proof.
  intros He Hw Hs.
  assert (Hsome : ∀ {V} (m1 m2 : gmap string V) k,
            dom m1 = dom m2 →
            (if m1 !! k is Some _ then true else false)
            = (if m2 !! k is Some _ then true else false)).
  { intros V m1 m2 k Hd.
    destruct (m1 !! k) as [v1|] eqn:E1, (m2 !! k) as [v2|] eqn:E2; try done.
    - apply not_elem_of_dom in E2. rewrite <- Hd in E2.
      exfalso. apply E2. apply elem_of_dom. by eexists.
    - apply not_elem_of_dom in E1. rewrite Hd in E1.
      exfalso. apply E1. apply elem_of_dom. by eexists. }
  destruct (check_environment_ext sock sock w2 w1) as [Hv (evs & H2 & H1)].
  - intros c _. destruct c; simpl; [by apply Hsome|done|by apply Hsome].
  - split; [done|]. by exists evs.
Qed.

Lemma reg_signal_frame loop w :
  w_fs (snd (reg_signal loop w)) = w_fs w ∧
  w_environ (snd (reg_signal loop w)) = w_environ w ∧
  w_which (snd (reg_signal loop w)) = w_which w ∧
  w_sig_refused (snd (reg_signal loop w)) = w_sig_refused w.
Proof.
  unfold reg_signal, loop_add_signal_handler. munfold.
  destruct (w_sig_refused w !! SIGTERM) as [e1|];
    [destruct (is_ValueError_or_RuntimeError e1); [|done]|];
    cbn [w_sig_refused emit set_handlers];
  (destruct (w_sig_refused w !! SIGHUP) as [e2|];
    [destruct (is_ValueError_or_RuntimeError e2); [|done]|];
    cbn [w_sig_refused emit set_handlers];
   (destruct (w_sig_refused w !! SIGINT) as [e3|];
     [destruct (is_ValueError_or_RuntimeError e3); [|done]|]; done)).
Qed.

(** X5. A verdict of the validator is not disturbed by the rest of the
    bootstrap: after [initialize_system_data], after [migrate_system_env]
    and after [reg_signal], whatever their outcome, [check_environment]
    returns what it returned before. *)
Theorem preflight_verdict_is_stable {handle} (sock : path)
    (cs : CoreSys handle) (loop : loop_handle) (w : world) :
  fst (check_environment sock (snd (initialize_system_data cs w)))
    = fst (check_environment sock w) ∧
  fst (check_environment sock (snd (migrate_system_env cs w)))
    = fst (check_environment sock w) ∧
  fst (check_environment sock (snd (reg_signal loop w)))
    = fst (check_environment sock w).
Proof.
  split_and!.
  - rewrite initialize_system_data_run.
    destruct (run_steps _ w) as [r w1] eqn:R.
    destruct (run_steps_effect _ _ _ _ R) as (evs & Hw1 & Hg & _ & _).
    assert (Hsnd : (let (r0, w') := (r, w1) in
                    match r0 with
                    | Ok _ => (Ok (cs_config cs), w')
                    | Raise e => (Raise e, w')
                    end).2 = w1) by (by destruct r as [[]|]).
    rewrite Hsnd. apply check_environment_ext. intros c _.
    rewrite Hw1. destruct c; simpl; [done| |done].
    rewrite !fs_is_socket_kind.
    by destruct (Hg sock) as [->|(-> & -> & _)].
  - destruct (migrate_system_env_total_and_local cs w)
      as (w' & evs & -> & Hw' & Hk & Hold).
    simpl. apply check_environment_ext. intros c _.
    rewrite Hw'. destruct c; simpl; [done| |done].
    rewrite !fs_is_socket_kind.
    destruct (decide (sock = old_build_dir (cs_config cs))) as [->|Hne].
    + by destruct Hold as [->|(-> & b & ->)].
    + by rewrite Hk.
  - destruct (reg_signal_frame loop w) as (Hfs & Henv & Hwh & _).
    apply check_environment_ext. intros c _.
    destruct c; simpl; by rewrite ?Hfs, ?Henv, ?Hwh.
Qed.

(** ** The signal coordinator, beyond the tolerated failures *)

(** X6. Only [ValueError] and [RuntimeError] are tolerated.  If the loop
    answers a binding with any other exception, [reg_signal] lets it
    through: the call raises that exception, the signals before it have
    been dealt with as usual, and the signals after it are not even
    attempted and keep whatever handler they had. *)
Theorem reg_signal_uncaught_propagates (loop : loop_handle) (w : world)
    (pre post : list signum) (s : signum) (e : exn) :
  signal_order = pre ++ s :: post →
  (∀ s' e', s' ∈ pre → w_sig_refused w !! s' = Some e' →
            is_ValueError_or_RuntimeError e' = true) →
  w_sig_refused w !! s = Some e →
  is_ValueError_or_RuntimeError e = false →
  ∃ w',
    reg_signal loop w = (Raise e, w') ∧
    emitted w w' (concat (bind_events w <$> pre) ++ [EvAddSignalHandler s]) ∧
    (∀ s', s' ∈ pre → w_sig_refused w !! s' = None →
           w_sig_handlers w' !! s' = Some Call_soon_loop_stop) ∧
    (∀ s', s' ∈ s :: post →
           w_sig_handlers w' !! s' = w_sig_handlers w !! s').
Proof.
  unfold signal_order. intros Hsplit Hpre Hs He.
  assert (Hcases : (pre = [] ∧ s = SIGTERM ∧ post = [SIGHUP; SIGINT]) ∨
                   (pre = [SIGTERM] ∧ s = SIGHUP ∧ post = [SIGINT]) ∨
                   (pre = [SIGTERM; SIGHUP] ∧ s = SIGINT ∧ post = [])).
  { destruct pre as [|a [|b [|c pre]]]; simplify_eq/=; auto.
    by destruct pre. }
  unfold reg_signal, loop_add_signal_handler, emitted, bind_events. munfold.
  destruct Hcases as [(-> & -> & ->)|[(-> & -> & ->)|(-> & -> & ->)]].
  - rewrite Hs, He. eexists. split; [reflexivity|]. simpl.
    split_and!; [done| |done]. intros s' Hin. by apply elem_of_nil in Hin.
  - pose proof (Hpre SIGTERM) as H1.
    destruct (w_sig_refused w !! SIGTERM) as [e1|] eqn:E1;
      [rewrite (H1 e1) by (done || apply list_elem_of_singleton; done)|];
      cbn [w_sig_refused emit set_handlers]; rewrite Hs, He;
      (eexists; split; [reflexivity|]; simpl; rewrite ?E1; split_and!;
       [by rewrite <- ?app_assoc| |]).
    + intros s' Hin. apply list_elem_of_singleton in Hin as ->. by rewrite E1.
    + done.
    + intros s' Hin _. apply list_elem_of_singleton in Hin as ->.
      by simplify_map_eq.
    + intros s' Hin. apply elem_of_cons in Hin as [->|Hin];
        [|apply list_elem_of_singleton in Hin as ->]; by simplify_map_eq.
  - pose proof (Hpre SIGTERM) as H1. pose proof (Hpre SIGHUP) as H2.
    assert (I1 : SIGTERM ∈ [SIGTERM; SIGHUP]) by (apply elem_of_cons; by left).
    assert (I2 : SIGHUP ∈ [SIGTERM; SIGHUP]).
    { apply elem_of_cons. right. by apply list_elem_of_singleton. }
    destruct (w_sig_refused w !! SIGTERM) as [e1|] eqn:E1;
      [rewrite (H1 e1 I1 eq_refl)|]; cbn [w_sig_refused emit set_handlers];
    (destruct (w_sig_refused w !! SIGHUP) as [e2|] eqn:E2;
      [rewrite (H2 e2 I2 eq_refl)|]; cbn [w_sig_refused emit set_handlers];
     rewrite Hs, He;
     (eexists; split; [reflexivity|]; simpl; rewrite ?E1, ?E2; split_and!;
      [by rewrite <- ?app_assoc
      |intros s' Hin Hnone;
       apply elem_of_cons in Hin as [->|Hin];
         [|apply list_elem_of_singleton in Hin as ->];
       rewrite ?E1, ?E2 in Hnone; try done; by simplify_map_eq
      |intros s' Hin; apply list_elem_of_singleton in Hin as ->;
       by simplify_map_eq])).
Qed.

(** X7. Registering twice is harmless.  A second [reg_signal] ends the
    way the first did and leaves the table of handlers exactly as the first
    one left it. *)
Theorem reg_signal_twice (loop : loop_handle) (w : world) :
  let w1 := snd (reg_signal loop w) in
  fst (reg_signal loop w1) = fst (reg_signal loop w) ∧
  w_sig_handlers (snd (reg_signal loop w1)) = w_sig_handlers w1.
Proof.
  unfold reg_signal, loop_add_signal_handler. munfold.
  destruct (w_sig_refused w !! SIGTERM) as [e1|] eqn:E1;
    [destruct (is_ValueError_or_RuntimeError e1) eqn:C1|];
    cbn [w_sig_refused emit set_handlers snd fst];
    rewrite ?E1, ?C1; cbn [w_sig_refused emit set_handlers snd fst];
    try done;
  (destruct (w_sig_refused w !! SIGHUP) as [e2|] eqn:E2;
    [destruct (is_ValueError_or_RuntimeError e2) eqn:C2|];
    cbn [w_sig_refused emit set_handlers snd fst];
    rewrite ?E1, ?C1, ?E2, ?C2; cbn [w_sig_refused emit set_handlers snd fst];
    rewrite ?E1, ?C1, ?E2, ?C2; cbn [w_sig_refused emit set_handlers snd fst];
    try done;
   (destruct (w_sig_refused w !! SIGINT) as [e3|] eqn:E3;
     [destruct (is_ValueError_or_RuntimeError e3) eqn:C3|];
     cbn [w_sig_refused emit set_handlers snd fst w_sig_handlers];
     rewrite ?E1, ?C1, ?E2, ?C2, ?E3, ?C3;
     cbn [w_sig_refused emit set_handlers snd fst w_sig_handlers];
     rewrite ?E1, ?C1, ?E2, ?C2, ?E3, ?C3;
     cbn [w_sig_refused emit set_handlers snd fst w_sig_handlers];
     rewrite ?E1, ?C1, ?E2, ?C2, ?E3, ?C3;
     cbn [w_sig_refused emit set_handlers snd fst w_sig_handlers];
     (split; [done|]);
     apply map_eq; intros s; destruct s; by simplify_map_eq)).
Qed.

(** ** The filesystem bootstrapper: what it leaves alone, what it says *)

Lemma snd_initialize_system_data {handle} (cs : CoreSys handle) w :
  snd (initialize_system_data cs w)
  = snd (run_steps (required_dirs (cs_config cs)) w).
Proof.
  rewrite initialize_system_data_run.
  by destruct (run_steps _ w) as [[[]|] w1].
Qed.

(** X8. Whatever its outcome, [initialize_system_data] only adds.  What
    exists before the run (a file with its text, a socket, a directory
    with its write permission) is the same afterwards, nothing is removed,
    and all the run does to the outside are info records and [os.mkdir]
    calls; the environment, the search path and the loop are not touched. *)
Theorem initialize_system_data_only_adds {handle} (cs : CoreSys handle)
    (w : world) :
  let w' := snd (initialize_system_data cs w) in
  ∃ evs,
    w' = extends w (w_fs w') evs ∧
    Forall is_info_or_mkdir evs ∧
    ∀ q, kind_of (w_fs w) q ≠ KMissing →
         kind_of (w_fs w') q = kind_of (w_fs w) q.
Proof.
  intros w'. subst w'. rewrite snd_initialize_system_data.
  destruct (run_steps _ w) as [r w1] eqn:R.
  destruct (run_steps_effect _ _ _ _ R) as (evs & Hw1 & Hg & Hev & _).
  exists evs. simpl. split_and!; [done| |].
  - eapply Forall_impl; [exact Hev|]. intros ev Hok.
    destruct ev; simpl in *; try done. by destruct Hok as [-> _].
  - intros q Hq. by eapply grows_kind.
Qed.

Lemma ensure_dir_announces fmt p parents w r w' :
  ensure_dir fmt p parents w = (r, w') →
  ∃ evs,
    w' = extends w (w_fs w') evs ∧
    grows (λ q, may_create (fmt, p, parents) q
                ∧ EvLog INFO fmt [ArgPath p] ∈ evs) (w_fs w) (w_fs w').
Proof.
  intros E. pose proof E as E'.
  apply ensure_dir_effect in E' as (evs & Hw' & Hg & _ & _).
  exists evs. split; [done|].
  destruct (ensure_dir_spec fmt p parents w) as (r0 & t' & evs0 & Hrun & Hres).
  rewrite E in Hrun. injection Hrun as -> Hw0.
  assert (evs0 = evs) as ->.
  { rewrite Hw' in Hw0. unfold extends in Hw0. injection Hw0 as _ Htr.
    by apply app_inv_head in Htr. }
  destruct (fs_is_dir (w_fs w) p).
  - destruct Hres as (_ & Ht & _). rewrite Hw0 in *. rewrite Ht.
    apply grows_refl.
  - destruct Hres as (mk & -> & _).
    eapply grows_mono; [|exact Hg]. intros q Hq. split; [done|].
    apply elem_of_cons. by left.
Qed.

Lemma run_steps_announces steps : ∀ w r w',
  run_steps steps w = (r, w') →
  ∃ evs,
    w' = extends w (w_fs w') evs ∧
    grows (λ q, ∃ fmt p parents,
                  (fmt, p, parents) ∈ steps ∧
                  may_create (fmt, p, parents) q ∧
                  EvLog INFO fmt [ArgPath p] ∈ evs) (w_fs w) (w_fs w').
Proof.
  induction steps as [|[[fmt p] parents] rest IH]; intros w r w'.
  - intros [= <- <-]. exists []. rewrite extends_id.
    split; [done|apply grows_refl].
  - rewrite run_steps_cons.
    destruct (ensure_dir fmt p parents w) as [[u|e] w1] eqn:E1.
    + intros Hrest.
      apply ensure_dir_announces in E1 as (evs1 & Hw1 & Hg1).
      destruct (IH _ _ _ Hrest) as (evs2 & Hw' & Hg2).
      exists (evs1 ++ evs2). split.
      { rewrite Hw', Hw1 at 1. by rewrite extends_extends. }
      eapply grows_trans.
      * eapply grows_mono; [|exact Hg1]. intros q [Hq Hin].
        exists fmt, p, parents. split_and!; [apply elem_of_cons; by left|done|].
        apply elem_of_app. by left.
      * eapply grows_mono; [|exact Hg2].
        intros q (f & p0 & b & Hin & Hq & Hlog).
        exists f, p0, b. split_and!; [apply elem_of_cons; by right|done|].
        apply elem_of_app. by right.
    + intros [= <- <-].
      apply ensure_dir_announces in E1 as (evs1 & Hw1 & Hg1).
      exists evs1. split; [done|].
      eapply grows_mono; [|exact Hg1]. intros q [Hq Hin].
      exists fmt, p, parents. split_and!; [apply elem_of_cons; by left|done|done].
Qed.

(** X9. No directory appears unannounced.  Every directory that exists
    after a run of [initialize_system_data] and did not before (whether the
    run succeeded or not) is a required path, or an ancestor of a required
    path that is created with [parents=True], for which the run logged its
    "Create ..." info record. *)
Theorem initialize_system_data_announces {handle} (cs : CoreSys handle)
    (w : world) :
  let w' := snd (initialize_system_data cs w) in
  ∃ evs,
    w' = extends w (w_fs w') evs ∧
    ∀ q, fs_is_dir (w_fs w) q = false → fs_is_dir (w_fs w') q = true →
         ∃ fmt p parents,
           (fmt, p, parents) ∈ required_dirs (cs_config cs) ∧
           within parents p q ∧
           EvLog INFO fmt [ArgPath p] ∈ evs.
Proof.
  intros w'. subst w'. rewrite snd_initialize_system_data.
  destruct (run_steps _ w) as [r w1] eqn:R.
  destruct (run_steps_announces _ _ _ _ R) as (evs & Hw1 & Hg).
  exists evs. simpl. split; [done|]. intros q Hbefore Hafter.
  rewrite fs_is_dir_kind in Hbefore, Hafter.
  destruct (Hg q) as [E|(_ & _ & fmt & p & parents & Hin & [_ Hq] & Hlog)].
  - rewrite E in Hafter. by rewrite Hafter in Hbefore.
  - by exists fmt, p, parents.
Qed.



(** ** The composition root: constructors *)

#[local] Set Warnings "-clear-no-such-hyp".

Section Constructors.
Context {handle : Type}.
Variable the_config : CoreConfig.
Variable construct : subsystem → CoreSys handle → world → result handle.

Lemma construct_all_cons s rest (cs : CoreSys handle) w :
  construct_all construct (s :: rest) cs w =
    match construct s cs (emit (EvConstruct s) w) with
    | Ok h => construct_all construct rest (set_slot s h cs)
                (emit (EvConstruct s) w)
    | Raise e => (Raise e, emit (EvConstruct s) w)
    end.
Proof. simpl. unfold new. munfold. by destruct (construct s cs _). Qed.

Lemma construct_and_bootstrap_fold loop w :
  construct_and_bootstrap the_config construct loop w =
    match construct_all construct all_subsystems
            (CoreSys_new the_config loop) w with
    | (Ok cs, w1) =>
        match initialize_system_data cs w1 with
        | (Ok _, w2) => (Ok cs, w2)
        | (Raise e, w2) => (Raise e, w2)
        end
    | (Raise e, w1) => (Raise e, w1)
    end.
Proof.
  unfold construct_and_bootstrap, all_subsystems, new. munfold.
  cbv beta zeta.
  do 13 (rewrite construct_all_cons;
         match goal with
         | |- context [construct ?s ?c ?w0] =>
             destruct (construct s c w0) as [?h|?e]; [|done]
         end).
  simpl. by destruct (initialize_system_data _ _) as [[]].
Qed.

(** What the constructor lines do: only constructor calls, one per name
    until one raises; the filesystem is not touched. *)
Lemma construct_all_effect names : ∀ (cs : CoreSys handle) w r w',
  construct_all construct names cs w = (r, w') →
  match r with
  | Ok cs' =>
      w' = extends w (w_fs w) (EvConstruct <$> names) ∧
      cs_config cs' = cs_config cs ∧
      cs_machine_id cs' = cs_machine_id cs ∧
      dom (cs_slots cs') = dom (cs_slots cs) ∪ list_to_set names ∧
      ∀ s, s ∉ names → cs_slots cs' !! s = cs_slots cs !! s
  | Raise e =>
      ∃ pre s post cs_k,
        names = pre ++ s :: post ∧
        construct_all construct pre cs w
          = (Ok cs_k, extends w (w_fs w) (EvConstruct <$> pre)) ∧
        construct s cs_k (extends w (w_fs w) (EvConstruct <$> (pre ++ [s])))
          = Raise e ∧
        w' = extends w (w_fs w) (EvConstruct <$> (pre ++ [s]))
  end.
Proof.
  induction names as [|s rest IH]; intros cs w r w'.
  - intros [= <- <-]. rewrite extends_id. split_and!; try done.
    set_solver.
  - rewrite construct_all_cons.
    destruct (construct s cs (emit (EvConstruct s) w)) as [h|e] eqn:Hc.
    + intros Hrest. apply IH in Hrest. destruct r as [cs'|e].
      * destruct Hrest as (-> & Hcfg & Hid & Hdom & Hslots).
        split_and!; [by rewrite emit_extends, extends_extends|done|done| |].
        { rewrite Hdom. simpl. rewrite dom_insert_L. set_solver. }
        { intros s' Hs'. apply not_elem_of_cons in Hs' as [Hne Hs'].
          rewrite (Hslots s' Hs'). simpl. by rewrite lookup_insert_ne. }
      * destruct Hrest as (pre & s0 & post & cs_k & -> & Hpre & Hraise & ->).
        exists (s :: pre), s0, post, cs_k.
        split_and!; [done| | |].
        { rewrite construct_all_cons, Hc, Hpre.
          by rewrite emit_extends, !extends_extends. }
        { by rewrite emit_extends, !extends_extends in Hraise. }
        { by rewrite emit_extends, !extends_extends. }
    + intros [= <- <-]. exists [], s, rest, cs.
      split_and!; [done| |done|done]. simpl. by rewrite extends_id.
Qed.

Lemma construct_all_app pre post (cs : CoreSys handle) w :
  construct_all construct (pre ++ post) cs w =
    match construct_all construct pre cs w with
    | (Ok cs_k, w_k) => construct_all construct post cs_k w_k
    | (Raise e, w_k) => (Raise e, w_k)
    end.
Proof.
  revert cs w. induction pre as [|s pre IH]; intros cs w; [done|].
  rewrite <- app_comm_cons, !construct_all_cons.
  destruct (construct s cs _); [apply IH|done].
Qed.


End Constructors.

(** ** [str.strip] *)

Lemma py_lstrip_spec s :
  ∃ l, s = l +:+ py_lstrip s ∧ all_space l = true ∧
       ∀ a, first_char (py_lstrip s) = Some a → py_isspace a = false.
Proof.
  induction s as [|a s IH]; simpl.
  - by exists "".
  - destruct (py_isspace a) eqn:Ha.
    + destruct IH as (l & Hs & Hl & Hf). exists (String a l).
      simpl. rewrite Ha, Hl. split_and!; [|done|done].
      change (String a l +:+ py_lstrip s) with (String a (l +:+ py_lstrip s)).
      by rewrite <- Hs.
    + exists "". split_and!; [done|done|]. simpl. by intros ? [= <-].
Qed.

Lemma py_rstrip_spec s :
  ∃ r, s = py_rstrip s +:+ r ∧ all_space r = true ∧
       (∀ a, last_char (py_rstrip s) = Some a → py_isspace a = false) ∧
       (py_rstrip s ≠ "" → first_char (py_rstrip s) = first_char s).
Proof.
  induction s as [|a s IH]; simpl.
  - by exists "".
  - destruct IH as (r & Hs & Hr & Hlast & _).
    destruct (py_rstrip s) as [|b t] eqn:E.
    + change (s = r) in Hs. subst r. destruct (py_isspace a) eqn:Ha.
      * exists (String a s). simpl. by rewrite Ha, Hr.
      * exists s. split_and!; [done|done| |done].
        simpl. by intros ? [= <-].
    + exists r. split_and!; [|done|done|done].
      change (String a (String b t) +:+ r)
        with (String a (String b t +:+ r)).
      by rewrite <- Hs.
Qed.

(** What [strip] returns is the text without its leading and trailing
    whitespace. *)
Lemma py_strip_spec s :
  ∃ l r, s = l +:+ py_strip s +:+ r ∧
         all_space l = true ∧ all_space r = true ∧
         (∀ a, first_char (py_strip s) = Some a → py_isspace a = false) ∧
         (∀ a, last_char (py_strip s) = Some a → py_isspace a = false).
Proof.
  unfold py_strip.
  destruct (py_lstrip_spec s) as (l & Hl & Hls & Hfirst).
  destruct (py_rstrip_spec (py_lstrip s)) as (r & Hr & Hrs & Hlast & Hsame).
  exists l, r. split_and!; [by rewrite <- Hr|done|done| |done].
  intros a Ha. apply Hfirst. rewrite <- Hsame; [done|].
  intros E. by rewrite E in Ha.
Qed.

(** ** The composition root: what ends up in the context *)

Lemma all_subsystems_NoDup : NoDup all_subsystems.
Proof. by apply (bool_decide_unpack _). Qed.

Section Context.
Context {handle : Type}.
Variable the_config : CoreConfig.
Variable construct : subsystem → CoreSys handle → world → result handle.

(** X12. Every slot holds what its constructor returned, and keeps it.
    For each subsystem, the object found in the returned context is the
    one its constructor gave back when it was called with a context in
    which exactly the subsystems declared before it were registered (and
    no host identifier yet), in a world whose filesystem was still the
    original one; the objects registered before it are the same in the
    returned context. *)
Theorem initialize_coresys_slots loop w cs w' pre s post :
  initialize_coresys the_config construct loop w = (Ok cs, w') →
  all_subsystems = pre ++ s :: post →
  ∃ cs_k h,
    dom (cs_slots cs_k) = list_to_set pre ∧
    cs_machine_id cs_k = None ∧
    cs_config cs_k = the_config ∧
    construct s cs_k (extends w (w_fs w) (EvConstruct <$> (pre ++ [s])))
      = Ok h ∧
    cs_slots cs !! s = Some h ∧
    ∀ s', s' ∈ pre → cs_slots cs !! s' = cs_slots cs_k !! s'.
Proof.
  rewrite initialize_coresys_split, construct_and_bootstrap_fold.
  intros Hrun Hsplit.
  pose proof all_subsystems_NoDup as Hnd. rewrite Hsplit in Hrun, Hnd.
  apply NoDup_app in Hnd as (_ & Hdisj & Hnd).
  apply NoDup_cons in Hnd as [Hs_post _].
  rewrite construct_all_app in Hrun.
  destruct (construct_all construct pre _ w) as [[cs_k|e] w_k] eqn:P; [|done].
  apply construct_all_effect in P as (-> & Hcfg & Hid & Hdom & _).
  rewrite construct_all_cons in Hrun.
  rewrite emit_after_extends in Hrun.
  destruct (construct s cs_k _) as [h|e] eqn:Hc; [|done].
  destruct (construct_all construct post _ _) as [[cs13|e] w13] eqn:Q; [|done].
  apply construct_all_effect in Q as (_ & _ & _ & _ & Hslots).
  destruct (initialize_system_data cs13 w13) as [[cfg|e] w2]; [|done].
  apply machine_id_step_effect in Hrun as [Hfinal _].
  exists cs_k, h. rewrite Hfinal.
  split_and!; [rewrite Hdom; simpl; set_solver|done|done| | |].
  - by rewrite fmap_app.
  - rewrite (Hslots s Hs_post). simpl. by rewrite lookup_insert_eq.
  - intros s' Hs'. rewrite Hslots.
    + simpl. rewrite lookup_insert_ne; [done|]. intros <-.
      apply (Hdisj s Hs'). apply elem_of_cons. by left.
    + intros Hin. apply (Hdisj s' Hs'). apply elem_of_cons. by right.
Qed.

Lemma machine_id_step_kind (cs : CoreSys handle) w w1 evs :
  initialize_system_data cs (extends w (w_fs w) evs) = (Ok the_config, w1) →
  kind_of (w_fs w) MACHINE_ID ≠ KMissing →
  kind_of (w_fs w1) MACHINE_ID = kind_of (w_fs w) MACHINE_ID.
Proof.
  intros Hboot Hk. rewrite initialize_system_data_run in Hboot.
  destruct (run_steps _ _) as [[[]|] w2] eqn:R; [|done].
  injection Hboot as _ ->.
  destruct (run_steps_effect _ _ _ _ R) as (evs1 & _ & Hg & _ & _).
  rewrite extends_fs in Hg. by apply (grows_kind _ _ _ _ Hg).
Qed.

(** X13. [exists()] is not [is_file()].  If [/etc/machine-id] is a
    directory, or a socket, the host identifier step does try to read it:
    after all thirteen constructors and the filesystem bootstrap went
    through, [initialize_coresys] raises [IsADirectoryError] (for a socket,
    an [OSError] with ENXIO) and returns no context. *)
Theorem initialize_coresys_machine_id_not_a_file loop w cs w1 :
  construct_and_bootstrap the_config construct loop w = (Ok cs, w1) →
  (∀ b, kind_of (w_fs w) MACHINE_ID = KDir b →
        initialize_coresys the_config construct loop w
        = (Raise (OSError EISDIR), emit (EvReadText MACHINE_ID) w1)) ∧
  (kind_of (w_fs w) MACHINE_ID = KSocket →
   initialize_coresys the_config construct loop w
   = (Raise (OSError ENXIO), emit (EvReadText MACHINE_ID) w1)).
Proof.
  intros B.
  assert (Hsplit : initialize_coresys the_config construct loop w
                   = machine_id_step cs w1)
    by (by rewrite initialize_coresys_split, B).
  apply construct_and_bootstrap_ok in B as (_ & _ & _ & Hboot).
  rewrite Hsplit. unfold machine_id_step, fs_exists, fs_read_text.
  split.
  - intros b Hk.
    pose proof (machine_id_step_kind _ _ _ _ Hboot) as Hk1.
    rewrite Hk in Hk1. specialize (Hk1 ltac:(done)). unfold kind_of in Hk1.
    by destruct (resolve (w_fs w1) MACHINE_ID) as [[]| |].
  - intros Hk.
    pose proof (machine_id_step_kind _ _ _ _ Hboot) as Hk1.
    rewrite Hk in Hk1. specialize (Hk1 ltac:(done)). unfold kind_of in Hk1.
    by destruct (resolve (w_fs w1) MACHINE_ID) as [[]| |].
Qed.

(** X14. The captured host identifier is the text of the file without the
    whitespace around it, and nothing else is altered: when
    [initialize_coresys] returns and [/etc/machine-id] was a file, the text
    of the file is the identifier with only whitespace before and after
    it, and the identifier neither starts nor ends with a whitespace
    character (it is empty when the file holds whitespace only). *)
Theorem initialize_coresys_machine_id_is_trimmed loop w cs w' s :
  initialize_coresys the_config construct loop w = (Ok cs, w') →
  kind_of (w_fs w) MACHINE_ID = KFile s →
  ∃ v l r,
    cs_machine_id cs = Some v ∧
    s = l +:+ v +:+ r ∧
    all_space l = true ∧ all_space r = true ∧
    (∀ a, first_char v = Some a → py_isspace a = false) ∧
    (∀ a, last_char v = Some a → py_isspace a = false) ∧
    (all_space s = true → v = "").
Proof.
  rewrite initialize_coresys_split.
  destruct (construct_and_bootstrap the_config construct loop w)
    as [[cs1|e] w1] eqn:B; [|done].
  apply construct_and_bootstrap_ok in B as (_ & _ & _ & Hboot).
  intros Hstep Hk.
  pose proof (machine_id_step_kind _ _ _ _ Hboot) as Hk1.
  rewrite Hk in Hk1. specialize (Hk1 ltac:(done)). unfold kind_of in Hk1.
  unfold machine_id_step, fs_exists, fs_read_text in Hstep.
  destruct (resolve (w_fs w1) MACHINE_ID) as [[s1| | |]| |]; try done.
  injection Hk1 as ->. injection Hstep as <- _.
  destruct (py_strip_spec s) as (l & r & Hs & Hl & Hr & Hfirst & Hlast).
  exists (py_strip s), l, r. split_and!; try done.
  intros Hall. destruct (py_strip s) as [|a v] eqn:E; [done|].
  exfalso. specialize (Hfirst a eq_refl).
  rewrite Hs in Hall. clear -Hall Hfirst Hl.
  induction l as [|b l IH]; simpl in *.
  - by rewrite Hfirst in Hall.
  - apply andb_prop in Hl as [_ Hl]. apply andb_prop in Hall as [_ Hall]. auto.
Qed.

End Context.

(** ** The logging initializer *)

Lemma colorfmt_value :
  str_format_from "%(log_color)s{}%(reset)s"
    ["%(asctime)s %(levelname)s (%(threadName)s) " +:+ "[%(name)s] %(message)s"]
  = Ok ("%(log_color)s%(asctime)s %(levelname)s (%(threadName)s) "
        +:+ "[%(name)s] %(message)s%(reset)s").
Proof. vm_compute. reflexivity. Qed.

Lemma initialize_logging_run st :
  initialize_logging st =
    (Ok (),
     Logging
       (match root_handlers st with [] => logging_INFO | _ => root_level st end)
       (match root_handlers st with
        | [] => [Handler "stderr" (Some hassio_formatter)]
        | h :: rest => Handler (h_target h) (Some hassio_formatter) :: rest
        end)
       (<["aiohttp.access" := logging_WARNING]> (logger_levels st))).
Proof.
  unfold initialize_logging, logging_basicConfig, str_format, Logger_setLevel,
    root_handler, root_handler_setFormatter, mbind, L_mbind, L_bind,
    hassio_formatter.
  destruct st as [lvl [|h rest] levels];
    cbn [root_handlers root_level logger_levels];
    rewrite colorfmt_value; reflexivity.
Qed.

(** X15. [initialize_logging] cannot fail, whatever the state of the
    logging module: [basicConfig] guarantees the root logger a handler, so
    [handlers[0]] is always there.  Afterwards the first root handler
    formats with the colored formatter (the plain format wrapped in
    [%(log_color)s] and [%(reset)s], the date format, the five colors) and
    the [aiohttp.access] logger is at WARNING; no root handler is added
    unless there was none. *)
Theorem initialize_logging_succeeds (st : logging_state) :
  ∃ st',
    initialize_logging st = (Ok (), st') ∧
    h_formatter <$> root_handlers st' !! 0 = Some (Some hassio_formatter) ∧
    logger_levels st' !! "aiohttp.access" = Some logging_WARNING ∧
    length (root_handlers st') = max 1 (length (root_handlers st)).
Proof.
  rewrite initialize_logging_run. eexists. split; [done|]. simpl.
  split_and!.
  - by destruct (root_handlers st).
  - by rewrite lookup_insert_eq.
  - by destruct (root_handlers st).
Qed.

(** X16. What [initialize_logging] leaves alone.  When the root logger
    already has handlers, its level stays what it was (the INFO threshold
    is only applied to a root logger without handlers), every handler keeps
    its target, and the handlers after the first keep their formatter.
    When it has none, it gets exactly one handler, on stderr, and the level
    INFO.  No logger other than [aiohttp.access] has its level changed. *)
Theorem initialize_logging_frame (st : logging_state) :
  let st' := snd (initialize_logging st) in
  (root_handlers st ≠ [] →
     root_level st' = root_level st ∧
     h_target <$> root_handlers st' = h_target <$> root_handlers st ∧
     ∀ i, root_handlers st' !! S i = root_handlers st !! S i) ∧
  (root_handlers st = [] →
     root_level st' = logging_INFO ∧
     root_handlers st' = [Handler "stderr" (Some hassio_formatter)]) ∧
  (∀ name, name ≠ "aiohttp.access" →
           logger_levels st' !! name = logger_levels st !! name).
Proof.
  intros st'. subst st'. rewrite initialize_logging_run. simpl.
  split_and!.
  - intros Hne. by destruct (root_handlers st).
  - by intros ->.
  - intros name Hne. by rewrite lookup_insert_ne.
Qed.

(** X17. [initialize_logging] is idempotent: calling it a second time
    leaves the logging module exactly as the first call left it. *)
Theorem initialize_logging_idempotent (st : logging_state) :
  initialize_logging (snd (initialize_logging st))
  = (Ok (), snd (initialize_logging st)).
Proof.
  rewrite !initialize_logging_run. simpl. f_equal.
  rewrite insert_insert_eq.
  by destruct (root_handlers st).
Qed.

(** ** The further properties at work on concrete worlds *)


Lemma migrate_system_env_removes_empty_witness :
  ∃ w', migrate_system_env stock_context stale_world = (Ok (), w') ∧
        emitted stale_world w' [EvRmdir (old_build_dir (cs_config stock_context))] ∧
        kind_of (w_fs w') (old_build_dir (cs_config stock_context)) = KMissing ∧
        migrate_system_env stock_context w' = (Ok (), w').
Proof.
  assert (H1 : resolve (w_fs stale_world)
                 (old_build_dir (cs_config stock_context))
               = Found (Dir true ∅)) by (vm_compute; reflexivity).
  assert (H2 : kind_of (w_fs stale_world)
                 (parent (old_build_dir (cs_config stock_context)))
               = KDir true) by (vm_compute; reflexivity).
  exact (migrate_system_env_removes_empty stock_context stale_world true H1 H2).
Defined.

Lemma migrate_system_env_keeps_required_dirs_witness :
  fs_is_dir
    (w_fs (snd (migrate_system_env stock_context
                  (snd (initialize_system_data stock_context leftover_world)))))
    ["data"; "addons"; "data"] = true.
Proof.
  assert (Hok : is_Ok (fst (initialize_system_data stock_context
                              leftover_world)) = true)
    by (vm_compute; reflexivity).
  assert (Hold : old_build_dir (cs_config stock_context)
                 ∉ required_paths (cs_config stock_context))
    by (apply (bool_decide_unpack _); vm_compute; reflexivity).
  assert (Hp : ["data"; "addons"; "data"]
               ∈ required_paths (cs_config stock_context))
    by (apply (bool_decide_unpack _); vm_compute; reflexivity).
  exact (migrate_system_env_keeps_required_dirs stock_context leftover_world
           _ _ (is_Ok_returned stock_config _ Hok) Hold _ Hp).
Defined.

Lemma check_environment_presence_only_witness :
  fst (check_environment stock_socket ready_host_world)
  = fst (check_environment stock_socket named_host_world) ∧
  ∃ evs,
    emitted ready_host_world
      (snd (check_environment stock_socket ready_host_world)) evs ∧
    emitted named_host_world
      (snd (check_environment stock_socket named_host_world)) evs.
Proof.
  assert (H1 : dom (w_environ ready_host_world)
               = dom (w_environ named_host_world))
    by (vm_compute; reflexivity).
  assert (H2 : dom (w_which ready_host_world) = dom (w_which named_host_world))
    by (vm_compute; reflexivity).
  assert (H3 : fs_is_socket (w_fs ready_host_world) stock_socket
               = fs_is_socket (w_fs named_host_world) stock_socket)
    by (vm_compute; reflexivity).
  exact (check_environment_presence_only stock_socket ready_host_world
           named_host_world H1 H2 H3).
Defined.

Lemma reg_signal_uncaught_propagates_witness :
  ∃ w',
    reg_signal 0 broken_sighup_world = (Raise (OtherException "TypeError"), w') ∧
    emitted broken_sighup_world w'
      (concat (bind_events broken_sighup_world <$> [SIGTERM])
       ++ [EvAddSignalHandler SIGHUP]) ∧
    (∀ s', s' ∈ [SIGTERM] → w_sig_refused broken_sighup_world !! s' = None →
           w_sig_handlers w' !! s' = Some Call_soon_loop_stop) ∧
    (∀ s', s' ∈ [SIGHUP; SIGINT] →
           w_sig_handlers w' !! s' = w_sig_handlers broken_sighup_world !! s').
Proof.
  apply (reg_signal_uncaught_propagates 0 broken_sighup_world
           [SIGTERM] [SIGINT] SIGHUP (OtherException "TypeError")).
  - reflexivity.
  - intros s' e' Hin. apply list_elem_of_singleton in Hin. subst s'.
    vm_compute. intros H. discriminate H.
  - vm_compute. reflexivity.
  - reflexivity.
Defined.



Lemma initialize_coresys_slots_witness :
  ∃ cs_k h,
    dom (cs_slots cs_k) = list_to_set [core; updater] ∧
    cs_machine_id cs_k = None ∧
    cs_config cs_k = stock_config ∧
    stock_construct api cs_k
      (extends fresh_world (w_fs fresh_world)
         (EvConstruct <$> ([core; updater] ++ [api]))) = Ok h ∧
    cs_slots (returned stock_context
                (fst (initialize_coresys stock_config stock_construct 0
                        fresh_world))) !! api = Some h ∧
    ∀ s', s' ∈ [core; updater] →
          cs_slots (returned stock_context
                      (fst (initialize_coresys stock_config stock_construct 0
                              fresh_world))) !! s'
          = cs_slots cs_k !! s'.
Proof.
  assert (Hok : is_Ok (fst (initialize_coresys stock_config stock_construct 0
                              fresh_world)) = true)
    by (vm_compute; reflexivity).
  exact (initialize_coresys_slots stock_config stock_construct 0 fresh_world
           _ _ [core; updater] api
           [supervisor; homeassistant; addons; snapshots; host; tasks;
            services; discovery; dbus; hassos]
           (is_Ok_returned stock_context _ Hok) eq_refl).
Defined.

Lemma initialize_coresys_machine_id_not_a_file_witness :
  initialize_coresys stock_config stock_construct 0 machine_id_is_a_dir_world
  = (Raise (OSError EISDIR),
     emit (EvReadText MACHINE_ID)
       (snd (construct_and_bootstrap stock_config stock_construct 0
               machine_id_is_a_dir_world))).
Proof.
  assert (Hok : is_Ok (fst (construct_and_bootstrap stock_config
                              stock_construct 0 machine_id_is_a_dir_world))
                = true)
    by (vm_compute; reflexivity).
  assert (Hk : kind_of (w_fs machine_id_is_a_dir_world) MACHINE_ID = KDir true)
    by (vm_compute; reflexivity).
  exact (proj1 (initialize_coresys_machine_id_not_a_file stock_config
                  stock_construct 0 machine_id_is_a_dir_world _ _
                  (is_Ok_returned stock_context _ Hok)) true Hk).
Defined.

Lemma initialize_coresys_machine_id_is_trimmed_witness :
  ∃ v l r,
    cs_machine_id (returned stock_context
                     (fst (initialize_coresys stock_config stock_construct 0
                             fresh_world))) = Some v ∧
    "abc123" +:+ newline = l +:+ v +:+ r ∧
    all_space l = true ∧ all_space r = true ∧
    (∀ a, first_char v = Some a → py_isspace a = false) ∧
    (∀ a, last_char v = Some a → py_isspace a = false) ∧
    (all_space ("abc123" +:+ newline) = true → v = "").
Proof.
  assert (Hok : is_Ok (fst (initialize_coresys stock_config stock_construct 0
                              fresh_world)) = true)
    by (vm_compute; reflexivity).
  assert (Hk : kind_of (w_fs fresh_world) MACHINE_ID
               = KFile ("abc123" +:+ newline))
    by (vm_compute; reflexivity).
  exact (initialize_coresys_machine_id_is_trimmed stock_config stock_construct
           0 fresh_world _ _ _ (is_Ok_returned stock_context _ Hok) Hk).
Defined.
